(** * Content script: resource registry, guarded invocation and error relay

    A shallow embedding of [src/content.js] and the properties of its
    [MemoryManager] class, of [safeContentExecute] and of the error relay
    ([handleScrapingError] and the two global listeners).

    Modelling conventions.
    - JavaScript objects that are only ever compared by identity (DOM
      elements, observers, functions) are identified by natural numbers;
      a function produced by [Function.prototype.bind] is a fresh object
      that remembers its target.
    - A JavaScript [Set] or [Map] iterates in insertion order, so both are
      lists in insertion order ([JsSet], [JsMap]).
    - Every call that leaves the script (a DOM method, a timer primitive, a
      user callback, [chrome.runtime.sendMessage], the console) is recorded
      in the [trace] of the [World].  Whether such a call returns or throws
      is decided by the hosting environment, the [platform] oracle, from the
      history of calls and the call itself.  The callee is opaque: it does
      not call back into the registry.
    - A method is a computation in the monad [M]: it maps a state to a
      result ([Ok] value or [Throw]n exception) and a new state. *)

From Stdlib Require Import List String ZArith Bool Arith Lia.
From Stdlib Require Import DecimalString.
Import ListNotations.
Open Scope string_scope.
Open Scope list_scope.

(** ** Values *)

(** Function objects.  [Plain n] is a function written by a caller,
    [Bound f k] is the [k]-th function object created by [f.bind(...)]. *)
Inductive Fn : Type :=
| Plain (id : nat)
| Bound (target : Fn) (serial : nat).

Fixpoint Fn_eqb (f g : Fn) : bool :=
  match f, g with
  | Plain a, Plain b => Nat.eqb a b
  | Bound f' a, Bound g' b => Fn_eqb f' g' && Nat.eqb a b
  | _, _ => false
  end.

(** The JavaScript values the script inspects. *)
Inductive JsVal : Type :=
| VUndefined
| VNull
| VBool (b : bool)
| VNum (z : Z)
| VStr (s : string)
| VError (name message : string)   (* an instance of Error *)
| VObject (id : nat).              (* any other object, opaque *)

Definition Element := nat.
Definition ObserverClass := nat.
Definition Observer := nat.
Definition TimerId := nat.
Definition Options := list (string * JsVal).

(** [String(z)] for an integral number. *)
Definition string_of_Z (z : Z) : string := NilZero.string_of_int (Z.to_int z).

(** [ToString], as a template literal applies it. *)
Definition to_string (v : JsVal) : string :=
  match v with
  | VUndefined => "undefined"
  | VNull => "null"
  | VBool true => "true"
  | VBool false => "false"
  | VNum z => string_of_Z z
  | VStr s => s
  | VError name message =>
      if String.eqb message "" then name
      else if String.eqb name "" then message
      else (name ++ ": " ++ message)%string
  | VObject _ => "[object Object]"
  end.

(** ** Insertion-ordered collections *)

Module JsSet.
Definition t (A : Type) : Type := list A.
Section Defs.
Context {A : Type}.
Variable eqb : A -> A -> bool.

Definition empty : t A := [].
Definition has (x : A) (s : t A) : bool := existsb (eqb x) s.
Definition add (x : A) (s : t A) : t A := if has x s then s else s ++ [x].
Definition delete (x : A) (s : t A) : t A := filter (fun y => negb (eqb x y)) s.
Definition clear (s : t A) : t A := [].
Definition size (s : t A) : nat := List.length s.
End Defs.
End JsSet.

Module JsMap.
Definition t (K V : Type) : Type := list (K * V).
Section Defs.
Context {K V : Type}.
Variable eqb : K -> K -> bool.

Definition empty : t K V := [].

Fixpoint get (k : K) (m : t K V) : option V :=
  match m with
  | [] => None
  | (k', v) :: rest => if eqb k k' then Some v else get k rest
  end.

Definition has (k : K) (m : t K V) : bool :=
  match get k m with Some _ => true | None => false end.

(** [set] keeps the position of a key that is already present. *)
Fixpoint set (k : K) (v : V) (m : t K V) : t K V :=
  match m with
  | [] => [(k, v)]
  | (k', v') :: rest =>
      if eqb k k' then (k', v) :: rest else (k', v') :: set k v rest
  end.

Definition delete (k : K) (m : t K V) : t K V :=
  filter (fun kv => negb (eqb k (fst kv))) m.

Definition clear (m : t K V) : t K V := [].
Definition size (m : t K V) : nat := List.length m.
Definition keys (m : t K V) : list K := map fst m.
End Defs.
End JsMap.

(** ** The registry's data *)

(** The object literal stored by [addEventListener]. *)
Record ListenerInfo : Type := mkListenerInfo {
  li_event : string;
  li_handler : Fn;
  li_originalHandler : Fn;
  li_options : Options;
  li_element : Element
}.

(** The fields set up by the constructor of [MemoryManager].  A set of
    listener records holds object literals, each a distinct object: it is
    the list of its entries, and one entry is one position. *)
Record MemoryManager : Type := mkMemoryManager {
  eventListeners : JsMap.t Element (list ListenerInfo);
  timers : JsSet.t TimerId;
  observers : JsSet.t Observer;
  intervals : JsSet.t TimerId;
  timeouts : JsSet.t TimerId;
  references : JsMap.t Element JsVal;
  cleanupCallbacks : JsSet.t Fn
}.

Definition new_MemoryManager : MemoryManager :=
  {| eventListeners := JsMap.empty;
     timers := JsSet.empty;
     observers := JsSet.empty;
     intervals := JsSet.empty;
     timeouts := JsSet.empty;
     references := JsMap.empty;
     cleanupCallbacks := JsSet.empty |}.

(** ** The hosting environment *)

(** The message object built by [handleScrapingError]. *)
Record Report : Type := mkReport {
  action : string;
  error : string;
  timestamp : Z;
  url : string
}.

(** What the platform runs when a timer fires. *)
Inductive Thunk : Type :=
| TimeoutThunk (callback : Fn)   (* the arrow function of MemoryManager.setTimeout *)
| CallbackThunk (callback : Fn)  (* the caller's callback itself *)
| RejectThunk.                   (* the arrow function of safeContentExecute *)

Inductive TimerKind : Type := OneShot | Repeating.

Record Timer : Type := mkTimer {
  tm_kind : TimerKind;
  tm_thunk : Thunk;
  tm_delay : Z
}.

(** An argument of a console call. *)
Inductive LogArg : Type :=
| LText (s : string)
| LVal (v : JsVal).

(** Calls that leave the script. *)
Inductive Action : Type :=
| ElAddEventListener (element : Element) (event : string) (handler : Fn) (options : Options)
| ElRemoveEventListener (element : Element) (event : string) (handler : Fn) (options : Options)
| NewObserver (observerClass : ObserverClass) (callback : Fn) (options : Options)
| ObserverDisconnect (observer : Observer)
| GlobalSetTimeout (thunk : Thunk) (delay : Z)
| GlobalSetInterval (thunk : Thunk) (delay : Z)
| GlobalClearTimeout (id : TimerId)
| GlobalClearInterval (id : TimerId)
| CallFn (f : Fn)
| RuntimeSendMessage (message : Report)
| ConsoleWarn (text : string) (err : JsVal)
| ConsoleError (text : string) (err : JsVal)
| ConsoleLog (args : list LogArg).

Record World : Type := mkWorld {
  trace : list Action;                    (* calls made so far, oldest first *)
  clock : Z;                              (* Date.now() *)
  href : string;                          (* window.location.href *)
  next_serial : nat;                      (* next fresh object identity *)
  next_timer : TimerId;                   (* next timer handle *)
  pending : JsMap.t TimerId Timer         (* timers the platform will fire *)
}.

Record State : Type := mkState {
  mm : MemoryManager;                     (* the singleton memoryManager *)
  world : World
}.

(** Functional updates of the records. *)
Definition set_eventListeners (v : JsMap.t Element (list ListenerInfo)) (m : MemoryManager) :=
  mkMemoryManager v (timers m) (observers m) (intervals m) (timeouts m)
                  (references m) (cleanupCallbacks m).
Definition set_observers (v : JsSet.t Observer) (m : MemoryManager) :=
  mkMemoryManager (eventListeners m) (timers m) v (intervals m) (timeouts m)
                  (references m) (cleanupCallbacks m).
Definition set_intervals (v : JsSet.t TimerId) (m : MemoryManager) :=
  mkMemoryManager (eventListeners m) (timers m) (observers m) v (timeouts m)
                  (references m) (cleanupCallbacks m).
Definition set_timeouts (v : JsSet.t TimerId) (m : MemoryManager) :=
  mkMemoryManager (eventListeners m) (timers m) (observers m) (intervals m) v
                  (references m) (cleanupCallbacks m).
Definition set_cleanupCallbacks (v : JsSet.t Fn) (m : MemoryManager) :=
  mkMemoryManager (eventListeners m) (timers m) (observers m) (intervals m)
                  (timeouts m) (references m) v.

Definition set_trace (v : list Action) (w : World) :=
  mkWorld v (clock w) (href w) (next_serial w) (next_timer w) (pending w).
Definition set_clock (v : Z) (w : World) :=
  mkWorld (trace w) v (href w) (next_serial w) (next_timer w) (pending w).
Definition set_next_serial (v : nat) (w : World) :=
  mkWorld (trace w) (clock w) (href w) v (next_timer w) (pending w).
Definition set_next_timer (v : TimerId) (w : World) :=
  mkWorld (trace w) (clock w) (href w) (next_serial w) v (pending w).
Definition set_pending (v : JsMap.t TimerId Timer) (w : World) :=
  mkWorld (trace w) (clock w) (href w) (next_serial w) (next_timer w) v.

(** ** The monad of methods *)

Inductive Res (A : Type) : Type :=
| Ok (a : A)
| Throw (e : JsVal).
Arguments Ok {A} a.
Arguments Throw {A} e.

Definition M (A : Type) : Type := State -> Res A * State.

Definition ret {A} (a : A) : M A := fun s => (Ok a, s).
Definition throw {A} (e : JsVal) : M A := fun s => (Throw e, s).
Definition bind {A B} (c : M A) (k : A -> M B) : M B :=
  fun s => match c s with
           | (Ok a, s') => k a s'
           | (Throw e, s') => (Throw e, s')
           end.

Declare Scope js_scope.
Delimit Scope js_scope with js.
Notation "x <- c ;; k" := (bind c (fun x => k))
  (at level 61, c at next level, right associativity) : js_scope.
Notation "c ;; k" := (bind c (fun _ => k))
  (at level 61, right associativity) : js_scope.
Open Scope js_scope.

(** [try { body } catch (error) { handler }] *)
Definition try_catch {A} (body : M A) (handler : JsVal -> M A) : M A :=
  fun s => match body s with
           | (Ok a, s') => (Ok a, s')
           | (Throw e, s') => handler e s'
           end.

(** [for (const x of xs) { body }]; the bodies below do not change [xs]. *)
Fixpoint for_each {A} (xs : list A) (body : A -> M unit) : M unit :=
  match xs with
  | [] => ret tt
  | x :: rest => body x ;; for_each rest body
  end.

Definition get_mm : M MemoryManager := fun s => (Ok (mm s), s).
Definition put_mm (m : MemoryManager) : M unit :=
  fun s => (Ok tt, mkState m (world s)).
Definition get_world : M World := fun s => (Ok (world s), s).
Definition put_world (w : World) : M unit :=
  fun s => (Ok tt, mkState (mm s) w).

(** A call that cannot fail: it is only recorded. *)
Definition record (a : Action) : M unit :=
  w <- get_world ;; put_world (set_trace (trace w ++ [a]) w).

(** A fresh object identity. *)
Definition fresh : M nat :=
  w <- get_world ;;
  put_world (set_next_serial (S (next_serial w)) w) ;;
  ret (next_serial w).

Definition date_now : M Z := w <- get_world ;; ret (clock w).
Definition location_href : M string := w <- get_world ;; ret (href w).

(** Time passing while the script is suspended or idle. *)
Definition advance (dt : Z) : M unit :=
  w <- get_world ;; put_world (set_clock (clock w + dt)%Z w).

Definition TypeError (message : string) : JsVal := VError "TypeError" message.

Definition CONTENT_DEBUG : bool := false.
Definition MAX_EXECUTION_TIME : Z := 30000.
Definition MAX_SELECTOR_ATTEMPTS : Z := 10.

(** [log(...args)], for a given value of the debug flag. *)
Definition log_when (debug : bool) (args : list LogArg) : M unit :=
  if debug then record (ConsoleLog (LText "STEPTWO Content:" :: args))
  else ret tt.

Definition log : list LogArg -> M unit := log_when CONTENT_DEBUG.

(** ** The script *)

Section Script.

(** The hosting environment: given the calls made so far and a call, it
    lets the call return ([None]) or makes it throw ([Some e]). *)
Variable platform : list Action -> Action -> option JsVal.

(** A call into the environment: recorded, then it returns or throws. *)
Definition call (a : Action) : M unit :=
  w <- get_world ;;
  record a ;;
  match platform (trace w) a with
  | None => ret tt
  | Some e => throw e
  end.

(** The timer primitives of the platform. *)
Definition global_setTimeout (thunk : Thunk) (delay : Z) : M TimerId :=
  record (GlobalSetTimeout thunk delay) ;;
  w <- get_world ;;
  let id := next_timer w in
  put_world (set_next_timer (S id)
               (set_pending (JsMap.set Nat.eqb id (mkTimer OneShot thunk delay) (pending w)) w)) ;;
  ret id.

Definition global_setInterval (thunk : Thunk) (delay : Z) : M TimerId :=
  record (GlobalSetInterval thunk delay) ;;
  w <- get_world ;;
  let id := next_timer w in
  put_world (set_next_timer (S id)
               (set_pending (JsMap.set Nat.eqb id (mkTimer Repeating thunk delay) (pending w)) w)) ;;
  ret id.

Definition global_clearTimeout (id : TimerId) : M unit :=
  call (GlobalClearTimeout id) ;;
  w <- get_world ;;
  put_world (set_pending (JsMap.delete Nat.eqb id (pending w)) w).

Definition global_clearInterval (id : TimerId) : M unit :=
  call (GlobalClearInterval id) ;;
  w <- get_world ;;
  put_world (set_pending (JsMap.delete Nat.eqb id (pending w)) w).

(** *** handleScrapingError and the global listeners (lines 1-25) *)

Definition handleScrapingError (message : string) : M unit :=
  try_catch
    (now <- date_now ;;
     here <- location_href ;;
     call (RuntimeSendMessage
             {| action := "contentScriptError";
                error := message;
                timestamp := now;
                url := here |}))
    (fun error => record (ConsoleError "Failed to send error to background:" error)).

(** The event objects of the two global listeners. *)
Record ErrorEvent : Type := mkErrorEvent { ev_error : JsVal }.
Record RejectionEvent : Type := mkRejectionEvent { ev_reason : JsVal }.

(** [v.message]: reading a property of [null] or [undefined] throws; an
    Error instance has a message; the other values are taken to have
    none. *)
Definition get_message (v : JsVal) : M JsVal :=
  match v with
  | VUndefined =>
      throw (TypeError "Cannot read properties of undefined (reading 'message')")
  | VNull =>
      throw (TypeError "Cannot read properties of null (reading 'message')")
  | VError _ message => ret (VStr message)
  | _ => ret VUndefined
  end.

Definition on_error (event : ErrorEvent) : M unit :=
  log [LText "Global error in content script:"; LVal (ev_error event)] ;;
  message <- get_message (ev_error event) ;;
  handleScrapingError ("Global error: " ++ to_string message)%string.

Definition on_unhandledrejection (event : RejectionEvent) : M unit :=
  log [LText "Unhandled promise rejection in content script:"; LVal (ev_reason event)] ;;
  handleScrapingError ("Unhandled promise rejection: " ++ to_string (ev_reason event))%string.

(** *** MemoryManager (lines 45-206) *)

Definition addEventListener (element : Element) (event : string) (handler : Fn)
           (options : option Options) : M Fn :=
  let options := match options with Some o => o | None => [] end in
  k <- fresh ;;
  let boundHandler := Bound handler k in
  m <- get_mm ;;
  (if negb (JsMap.has Nat.eqb element (eventListeners m))
   then put_mm (set_eventListeners (JsMap.set Nat.eqb element [] (eventListeners m)) m)
   else ret tt) ;;
  let listenerInfo :=
    {| li_event := event;
       li_handler := boundHandler;
       li_originalHandler := handler;
       li_options := options;
       li_element := element |} in
  m <- get_mm ;;
  match JsMap.get Nat.eqb element (eventListeners m) with
  | None => throw (TypeError "Cannot read properties of undefined (reading 'add')")
  | Some listeners =>
      put_mm (set_eventListeners
                (JsMap.set Nat.eqb element (listeners ++ [listenerInfo]) (eventListeners m)) m)
  end ;;
  call (ElAddEventListener element event boundHandler options) ;;
  ret boundHandler.

(** The predicate of [find] in [removeEventListener]. *)
Definition listener_matches (event : string) (handler : Fn) (l : ListenerInfo) : bool :=
  String.eqb (li_event l) event
  && (Fn_eqb (li_handler l) handler || Fn_eqb (li_originalHandler l) handler).

(** Deleting from a set of distinct objects the one [find p] returned:
    the first entry that satisfies [p] goes, the others stay. *)
Fixpoint delete_found {A} (p : A -> bool) (l : list A) : list A :=
  match l with
  | [] => []
  | x :: rest => if p x then rest else x :: delete_found p rest
  end.

Definition removeEventListener (element : Element) (event : string) (handler : Fn) : M unit :=
  m <- get_mm ;;
  if negb (JsMap.has Nat.eqb element (eventListeners m)) then ret tt
  else
    match JsMap.get Nat.eqb element (eventListeners m) with
    | None => throw (TypeError "undefined is not iterable")
    | Some listeners =>
        match find (listener_matches event handler) listeners with
        | None => ret tt
        | Some listenerToRemove =>
            call (ElRemoveEventListener element event
                    (li_handler listenerToRemove) (li_options listenerToRemove)) ;;
            let listeners' := delete_found (listener_matches event handler) listeners in
            m <- get_mm ;;
            put_mm (set_eventListeners
                      (JsMap.set Nat.eqb element listeners' (eventListeners m)) m) ;;
            if Nat.eqb (List.length listeners') 0
            then m <- get_mm ;;
                 put_mm (set_eventListeners
                           (JsMap.delete Nat.eqb element (eventListeners m)) m)
            else ret tt
        end
    end.

Definition createObserver (observerClass : ObserverClass) (callback : Fn)
           (options : option Options) : M Observer :=
  let options := match options with Some o => o | None => [] end in
  call (NewObserver observerClass callback options) ;;
  observer <- fresh ;;
  m <- get_mm ;;
  put_mm (set_observers (JsSet.add Nat.eqb observer (observers m)) m) ;;
  ret observer.

Definition setTimeout (callback : Fn) (delay : Z) : M TimerId :=
  timeoutId <- global_setTimeout (TimeoutThunk callback) delay ;;
  m <- get_mm ;;
  put_mm (set_timeouts (JsSet.add Nat.eqb timeoutId (timeouts m)) m) ;;
  ret timeoutId.

Definition setInterval (callback : Fn) (delay : Z) : M TimerId :=
  intervalId <- global_setInterval (CallbackThunk callback) delay ;;
  m <- get_mm ;;
  put_mm (set_intervals (JsSet.add Nat.eqb intervalId (intervals m)) m) ;;
  ret intervalId.

Definition clearTimeout (timeoutId : TimerId) : M unit :=
  m <- get_mm ;;
  if JsSet.has Nat.eqb timeoutId (timeouts m) then
    global_clearTimeout timeoutId ;;
    m <- get_mm ;;
    put_mm (set_timeouts (JsSet.delete Nat.eqb timeoutId (timeouts m)) m)
  else ret tt.

Definition clearInterval (intervalId : TimerId) : M unit :=
  m <- get_mm ;;
  if JsSet.has Nat.eqb intervalId (intervals m) then
    global_clearInterval intervalId ;;
    m <- get_mm ;;
    put_mm (set_intervals (JsSet.delete Nat.eqb intervalId (intervals m)) m)
  else ret tt.

Definition addCleanupCallback (callback : Fn) : M unit :=
  m <- get_mm ;;
  put_mm (set_cleanupCallbacks (JsSet.add Fn_eqb callback (cleanupCallbacks m)) m).

Definition removeCleanupCallback (callback : Fn) : M unit :=
  m <- get_mm ;;
  put_mm (set_cleanupCallbacks (JsSet.delete Fn_eqb callback (cleanupCallbacks m)) m).

Definition cleanupAll : M unit :=
  (* Clean up all event listeners *)
  m <- get_mm ;;
  for_each (eventListeners m) (fun entry =>
    let element := fst entry in
    let listeners := snd entry in
    for_each listeners (fun listener =>
      try_catch
        (call (ElRemoveEventListener element (li_event listener)
                 (li_handler listener) (li_options listener)))
        (fun error => record (ConsoleWarn "Error removing event listener:" error)))) ;;
  m <- get_mm ;;
  put_mm (set_eventListeners (JsMap.clear (eventListeners m)) m) ;;
  (* Clean up all observers *)
  m <- get_mm ;;
  for_each (observers m) (fun observer =>
    try_catch
      (call (ObserverDisconnect observer))
      (fun error => record (ConsoleWarn "Error disconnecting observer:" error))) ;;
  m <- get_mm ;;
  put_mm (set_observers (JsSet.clear (observers m)) m) ;;
  (* Clean up all timers *)
  m <- get_mm ;;
  for_each (timeouts m) (fun timeoutId =>
    try_catch
      (global_clearTimeout timeoutId)
      (fun error => record (ConsoleWarn "Error clearing timeout:" error))) ;;
  m <- get_mm ;;
  put_mm (set_timeouts (JsSet.clear (timeouts m)) m) ;;
  m <- get_mm ;;
  for_each (intervals m) (fun intervalId =>
    try_catch
      (global_clearInterval intervalId)
      (fun error => record (ConsoleWarn "Error clearing interval:" error))) ;;
  m <- get_mm ;;
  put_mm (set_intervals (JsSet.clear (intervals m)) m) ;;
  (* Execute custom cleanup callbacks *)
  m <- get_mm ;;
  for_each (cleanupCallbacks m) (fun callback =>
    try_catch
      (call (CallFn callback))
      (fun error => record (ConsoleWarn "Error in cleanup callback:" error))) ;;
  m <- get_mm ;;
  put_mm (set_cleanupCallbacks (JsSet.clear (cleanupCallbacks m)) m) ;;
  log [LText "Memory cleanup completed"].

(** The object returned by [getMemoryUsage]. *)
Record MemoryUsage : Type := mkMemoryUsage {
  mu_eventListeners : nat;
  mu_observers : nat;
  mu_timeouts : nat;
  mu_intervals : nat;
  mu_cleanupCallbacks : nat
}.

Definition getMemoryUsage : M MemoryUsage :=
  m <- get_mm ;;
  ret {| mu_eventListeners := JsMap.size (eventListeners m);
         mu_observers := JsSet.size (observers m);
         mu_timeouts := JsSet.size (timeouts m);
         mu_intervals := JsSet.size (intervals m);
         mu_cleanupCallbacks := JsSet.size (cleanupCallbacks m) |}.

(** *** Timers firing *)

(** The body of the function handed to the platform, run for handle [id]. *)
Definition run_thunk (id : TimerId) (thunk : Thunk) : M unit :=
  match thunk with
  | TimeoutThunk callback =>
      m <- get_mm ;;
      put_mm (set_timeouts (JsSet.delete Nat.eqb id (timeouts m)) m) ;;
      call (CallFn callback)
  | CallbackThunk callback => call (CallFn callback)
  | RejectThunk => ret tt
  end.

(** The platform fires the timer [id] if it is pending; a one-shot timer
    is no longer pending once it has fired. *)
Definition fire (id : TimerId) : M unit :=
  w <- get_world ;;
  match JsMap.get Nat.eqb id (pending w) with
  | None => ret tt
  | Some tm =>
      match tm_kind tm with
      | OneShot => put_world (set_pending (JsMap.delete Nat.eqb id (pending w)) w)
      | Repeating => ret tt
      end ;;
      run_thunk id (tm_thunk tm)
  end.

(** *** safeContentExecute (lines 216-240) *)

Inductive Settlement : Type :=
| Resolved (v : JsVal)
| Rejected (e : JsVal).

(** What a call [fn(...args)] does: it throws at once, or it returns a
    promise (or plain value) settled [after] milliseconds later, or one
    that never settles. *)
Inductive Behaviour : Type :=
| Throws (e : JsVal)
| Settles (after : Z) (s : Settlement)
| NeverSettles.

Definition AsyncFn : Type := list JsVal -> Behaviour.

Definition settle (s : Settlement) : M JsVal :=
  match s with
  | Resolved v => ret v
  | Rejected e => throw e
  end.

(** [await Promise.race([fn(...args), new Promise((_, reject) =>
    setTimeout(() => reject(new Error('Execution timeout')), limit))])].
    The array is built left to right, so a call that throws leaves no
    timer behind.  The script resumes when the first of the two promises
    settles; the timer wins when both fall in the same millisecond.  The
    timer is never cleared: it stays pending when the operation wins, and
    rejecting a promise that lost the race has no effect. *)
Definition await_race (b : Behaviour) (limit : Z) : M JsVal :=
  match b with
  | Throws e => throw e
  | Settles after s =>
      timer <- global_setTimeout RejectThunk limit ;;
      if (after <? limit)%Z
      then advance after ;; settle s
      else advance limit ;; fire timer ;;
           throw (VError "Error" "Execution timeout")
  | NeverSettles =>
      timer <- global_setTimeout RejectThunk limit ;;
      advance limit ;; fire timer ;;
      throw (VError "Error" "Execution timeout")
  end.

(** [safeContentExecute(fn, context)(...args)], for a given value of the
    debug flag.  [Ok v] is the returned promise fulfilled with [v],
    [Throw e] the returned promise rejected with [e]. *)
Definition safeContentExecute_when (debug : bool) (fn : AsyncFn)
           (context : option string) (args : list JsVal) : M JsVal :=
  let context := match context with Some c => c | None => "content" end in
  startTime <- date_now ;;
  try_catch
    (result <- await_race (fn args) MAX_EXECUTION_TIME ;;
     now <- date_now ;;
     let executionTime := (now - startTime)%Z in
     (if (5000 <? executionTime)%Z
      then log_when debug
             [LText ("Slow execution in " ++ context ++ ": "
                       ++ string_of_Z executionTime ++ "ms")%string]
      else ret tt) ;;
     ret result)
    (fun error =>
       log_when debug [LText ("Error in " ++ context ++ ":")%string; LVal error] ;;
       throw error).

Definition safeContentExecute : AsyncFn -> option string -> list JsVal -> M JsVal :=
  safeContentExecute_when CONTENT_DEBUG.

(** ** Runs of the script *)

(** What the code around the script and the platform can make it do. *)
Inductive Op : Type :=
| OpAddEventListener (element : Element) (event : string) (handler : Fn)
                     (options : option Options)
| OpRemoveEventListener (element : Element) (event : string) (handler : Fn)
| OpCreateObserver (observerClass : ObserverClass) (callback : Fn)
                   (options : option Options)
| OpSetTimeout (callback : Fn) (delay : Z)
| OpSetInterval (callback : Fn) (delay : Z)
| OpClearTimeout (timeoutId : TimerId)
| OpClearInterval (intervalId : TimerId)
| OpAddCleanupCallback (callback : Fn)
| OpRemoveCleanupCallback (callback : Fn)
| OpCleanupAll
| OpGetMemoryUsage
| OpHandleScrapingError (message : string)
| OpSafeContentExecute (fn : AsyncFn) (context : option string) (args : list JsVal)
| OpErrorEvent (event : ErrorEvent)          (* the page reports an uncaught error *)
| OpRejectionEvent (event : RejectionEvent)  (* ... or an unhandled rejection *)
| OpFire (id : TimerId)                      (* the platform fires a timer *)
| OpAdvance (dt : Z).                        (* time passes *)

(** One step; the caller goes on whether the step returned or threw. *)
Definition exec_op (op : Op) (s : State) : State :=
  match op with
  | OpAddEventListener element event handler options =>
      snd (addEventListener element event handler options s)
  | OpRemoveEventListener element event handler =>
      snd (removeEventListener element event handler s)
  | OpCreateObserver observerClass callback options =>
      snd (createObserver observerClass callback options s)
  | OpSetTimeout callback delay => snd (setTimeout callback delay s)
  | OpSetInterval callback delay => snd (setInterval callback delay s)
  | OpClearTimeout timeoutId => snd (clearTimeout timeoutId s)
  | OpClearInterval intervalId => snd (clearInterval intervalId s)
  | OpAddCleanupCallback callback => snd (addCleanupCallback callback s)
  | OpRemoveCleanupCallback callback => snd (removeCleanupCallback callback s)
  | OpCleanupAll => snd (cleanupAll s)
  | OpGetMemoryUsage => snd (getMemoryUsage s)
  | OpHandleScrapingError message => snd (handleScrapingError message s)
  | OpSafeContentExecute fn context args =>
      snd (safeContentExecute fn context args s)
  | OpErrorEvent event => snd (on_error event s)
  | OpRejectionEvent event => snd (on_unhandledrejection event s)
  | OpFire id => snd (fire id s)
  | OpAdvance dt => snd (advance dt s)
  end.

Definition exec (ops : list Op) (s : State) : State :=
  fold_left (fun s op => exec_op op s) ops s.

(** The state in which the script starts: [new MemoryManager()] in some
    world. *)
Definition init (w : World) : State := mkState new_MemoryManager w.


(** The registry tracks the wrapped handler [wrapped] under [owner]. *)
Definition tracks (s : State) (owner : Element) (wrapped : Fn) : Prop :=
  exists listeners l,
    JsMap.get Nat.eqb owner (eventListeners (mm s)) = Some listeners
    /\ In l listeners /\ li_handler l = wrapped.

(** ** Vocabulary of the properties *)

Definition is_console (a : Action) : bool :=
  match a with
  | ConsoleWarn _ _ | ConsoleError _ _ | ConsoleLog _ => true
  | _ => false
  end.


(** The text of the warning [cleanupAll] logs when a teardown call throws. *)
Definition warn_text (a : Action) : string :=
  match a with
  | ElRemoveEventListener _ _ _ _ => "Error removing event listener:"
  | ObserverDisconnect _ => "Error disconnecting observer:"
  | GlobalClearTimeout _ => "Error clearing timeout:"
  | GlobalClearInterval _ => "Error clearing interval:"
  | CallFn _ => "Error in cleanup callback:"
  | _ => ""
  end.

Definition detach_call (element : Element) (l : ListenerInfo) : Action :=
  ElRemoveEventListener element (li_event l) (li_handler l) (li_options l).

(** The teardown calls of the five phases for a registry, in the order of
    the phases and, within a phase, in insertion order. *)
Definition planned_teardown (m : MemoryManager) : list Action :=
  flat_map (fun entry => map (detach_call (fst entry)) (snd entry)) (eventListeners m)
  ++ map ObserverDisconnect (observers m)
  ++ map GlobalClearTimeout (timeouts m)
  ++ map GlobalClearInterval (intervals m)
  ++ map CallFn (cleanupCallbacks m).

(** [attempted tr acts out]: starting after the history [tr], [out] makes
    every call of [acts] once, in order, and follows each call that throws
    by its warning, and by nothing else. *)
Inductive attempted : list Action -> list Action -> list Action -> Prop :=
| attempted_nil : forall tr, attempted tr [] []
| attempted_ok : forall tr a acts out,
    platform tr a = None ->
    attempted (tr ++ [a]) acts out ->
    attempted tr (a :: acts) (a :: out)
| attempted_throw : forall tr a e acts out,
    platform tr a = Some e ->
    attempted (tr ++ [a; ConsoleWarn (warn_text a) e]) acts out ->
    attempted tr (a :: acts) (a :: ConsoleWarn (warn_text a) e :: out).

(** [performs c acts]: from any state, [c] returns normally, leaves the
    registry as it is, and extends the trace by an attempt of [acts]. *)
Definition performs (c : M unit) (acts : list Action) : Prop :=
  forall s, exists s' out,
    c s = (Ok tt, s')
    /\ mm s' = mm s
    /\ trace (world s') = trace (world s) ++ out
    /\ attempted (trace (world s)) acts out.

(** The warning of a phase of [cleanupAll]. *)
Definition warn (text : string) : JsVal -> M unit :=
  fun error => record (ConsoleWarn text error).

(** What holds of the registry in every state the script can reach. *)
Record registry_ok (m : MemoryManager) : Prop := mkRegistryOk {
  ok_timers : timers m = [];
  ok_references : references m = [];
  ok_owners : NoDup (JsMap.keys (eventListeners m));
  ok_nonempty : Forall (fun entry => snd entry <> []) (eventListeners m);
  ok_observers : NoDup (observers m);
  ok_timeouts : NoDup (timeouts m);
  ok_intervals : NoDup (intervals m);
  ok_cleanupCallbacks : NoDup (cleanupCallbacks m)
}.


(** The steps that cancel the repeating timer [id]. *)
Definition cancels_interval (id : TimerId) (op : Op) : bool :=
  match op with
  | OpClearInterval id' => Nat.eqb id' id
  | OpCleanupAll => true
  | _ => false
  end.

(** The timeout error of [safeContentExecute]. *)
Definition timeout_error : JsVal := VError "Error" "Execution timeout".

(** The note [safeContentExecute] hands to [log] after a slow success. *)
Definition slow_note (context : string) (executionTime : Z) : Action :=
  ConsoleLog [LText "STEPTWO Content:";
              LText ("Slow execution in " ++ context ++ ": "
                       ++ string_of_Z executionTime ++ "ms")%string].

(** ** Vocabulary of the further properties *)

(** The records tracked under an owner, in the order of their
    registration; none when the owner has no entry. *)
Definition listeners_of (element : Element) (s : State) : list ListenerInfo :=
  match JsMap.get Nat.eqb element (eventListeners (mm s)) with
  | Some listeners => listeners
  | None => []
  end.

(** [fn_below n f]: the function object [f] exists once the objects of
    the serials below [n] have been created. *)
Fixpoint fn_below (n : nat) (f : Fn) : bool :=
  match f with
  | Plain _ => true
  | Bound target serial => Nat.ltb serial n && fn_below n target
  end.

(** Every handler a tracked record mentions exists already. *)
Definition handlers_below (s : State) : Prop :=
  Forall (fun entry =>
            Forall (fun l =>
                      fn_below (next_serial (world s)) (li_handler l) = true
                      /\ fn_below (next_serial (world s)) (li_originalHandler l) = true)
                   (snd entry))
         (eventListeners (mm s)).

(** In a run, the handlers passed to [addEventListener] are functions
    that exist when they are passed. *)
Fixpoint passes_existing_functions (ops : list Op) (s : State) : Prop :=
  match ops with
  | [] => True
  | op :: rest =>
      match op with
      | OpAddEventListener _ _ handler _ =>
          fn_below (next_serial (world s)) handler = true
      | _ => True
      end
      /\ passes_existing_functions rest (exec_op op s)
  end.

Definition is_log (a : Action) : bool :=
  match a with
  | ConsoleLog _ => true
  | _ => false
  end.


Definition is_cleanupAll (op : Op) : bool :=
  match op with
  | OpCleanupAll => true
  | _ => false
  end.

(** Every tracked timer handle is a timer the platform still holds: a
    tracked timeout is a pending one-shot timer that runs the wrapper of
    [MemoryManager.setTimeout], a tracked interval a pending repeating
    timer that runs the caller's callback. *)
Definition timers_live (s : State) : Prop :=
  (forall id, In id (timeouts (mm s)) ->
      id < next_timer (world s)
      /\ exists callback delay,
           JsMap.get Nat.eqb id (pending (world s))
           = Some (mkTimer OneShot (TimeoutThunk callback) delay))
  /\ (forall id, In id (intervals (mm s)) ->
         id < next_timer (world s)
         /\ exists callback delay,
              JsMap.get Nat.eqb id (pending (world s))
              = Some (mkTimer Repeating (CallbackThunk callback) delay)).

(** The record [l] tracked under [element] was attached to it: the trace
    holds the attach call with the event, handler and options of [l]. *)
Definition attached (s : State) (element : Element) (l : ListenerInfo) : Prop :=
  li_element l = element
  /\ (exists serial, li_handler l = Bound (li_originalHandler l) serial)
  /\ In (ElAddEventListener element (li_event l) (li_handler l) (li_options l))
        (trace (world s)).

(** [steps_on s s']: from [s] to [s'] the counters do not go back and
    the trace grows, by calls other than [console.log]. *)
Definition steps_on (s s' : State) : Prop :=
  next_serial (world s) <= next_serial (world s')
  /\ next_timer (world s) <= next_timer (world s')
  /\ exists out,
       trace (world s') = trace (world s) ++ out
       /\ Forall (fun a => is_log a = false) out.

(** [keeps_counters c]: the computation [c] allocates nothing. *)
Definition keeps_counters {A} (c : M A) : Prop :=
  forall s,
    next_serial (world (snd (c s))) = next_serial (world s)
    /\ next_timer (world (snd (c s))) = next_timer (world s).

(** The values that are not objects and can be thrown: booleans, numbers
    and strings. *)
Definition is_primitive (v : JsVal) : bool :=
  match v with
  | VBool _ | VNum _ | VStr _ => true
  | _ => false
  end.

(** The values whose text [to_string] gives as it is: undefined, null,
    booleans, strings and Error instances. *)
Definition has_plain_text (v : JsVal) : bool :=
  match v with
  | VUndefined | VNull | VBool _ | VStr _ | VError _ _ => true
  | VNum _ | VObject _ => false
  end.

(** [pending_kept s s']: the timers that exist in [s] are in [s'] what
    they are in [s]. *)
Definition pending_kept (s s' : State) : Prop :=
  forall id, id < next_timer (world s) ->
    JsMap.get Nat.eqb id (pending (world s'))
    = JsMap.get Nat.eqb id (pending (world s)).






(** The platform's [clearTimeout] and [clearInterval] return. *)
Definition clears_return : Prop :=
  forall tr id,
    platform tr (GlobalClearTimeout id) = None
    /\ platform tr (GlobalClearInterval id) = None.

(** The timers left of [p] once the handles [ids] are cleared. *)
Definition cleared (ids : list TimerId) (p : JsMap.t TimerId Timer) :
  JsMap.t TimerId Timer :=
  fold_left (fun p id => JsMap.delete Nat.eqb id p) ids p.

(** [clears c ids]: from any state, [c] returns normally, leaves the
    registry as it is, and clears the timers [ids] and no other. *)
Definition clears (c : M unit) (ids : list TimerId) : Prop :=
  forall s, exists s',
    c s = (Ok tt, s')
    /\ mm s' = mm s
    /\ pending (world s') = cleared ids (pending (world s)).

(** ** Sample inputs *)

Definition quiet_platform : list Action -> Action -> option JsVal :=
  fun _ _ => None.

(** Detaching from element 1 throws, and so does the callback 16. *)
Definition faulty_platform : list Action -> Action -> option JsVal :=
  fun _ a =>
    match a with
    | ElRemoveEventListener 1 _ _ _ => Some (VError "Error" "detach failed")
    | CallFn (Plain 16) => Some (VStr "boom")
    | RuntimeSendMessage _ => Some (VError "Error" "Extension context invalidated.")
    | _ => None
    end.

Definition sample_world : World :=
  {| trace := [];
     clock := 1700000000000;
     href := "https://example.org/gallery";
     next_serial := 0;
     next_timer := 1;
     pending := [] |}.

(** Three listeners on two owners, one observer, two one-shot timers, one
    repeating timer and one cleanup callback. *)
Definition sample_run : list Op :=
  [OpAddEventListener 1 "click" (Plain 10) None;
   OpAddEventListener 1 "keydown" (Plain 11) None;
   OpAddEventListener 2 "click" (Plain 10) None;
   OpCreateObserver 7 (Plain 12) None;
   OpSetTimeout (Plain 13) 100;
   OpSetTimeout (Plain 14) 200;
   OpSetInterval (Plain 15) 50;
   OpAddCleanupCallback (Plain 16)].


(** Attaching to element 5 throws. *)
Definition refusing_platform : list Action -> Action -> option JsVal :=
  fun _ a =>
    match a with
    | ElAddEventListener 5 _ _ _ => Some (VError "SecurityError" "blocked")
    | NewObserver 8 _ _ => Some (TypeError "observerClass is not a constructor")
    | _ => None
    end.

(** An operation that resolves with 42 after six seconds. *)
Definition slow_operation : AsyncFn :=
  fun _ => Settles 6000 (Resolved (VNum 42)).

(** ** Facts about the collections *)

Lemma Fn_eqb_eq : forall f g, Fn_eqb f g = true <-> f = g.
Proof.
  induction f as [a | f IH a]; destruct g as [b | g b]; simpl;
    try (split; [discriminate | intro H; inversion H]).
  - rewrite Nat.eqb_eq. split; [intros -> | intro H; inversion H]; reflexivity.
  - rewrite andb_true_iff, IH, Nat.eqb_eq.
    split; [intros [-> ->] | intro H; inversion H]; auto.
Qed.

Section SetFacts.
Context {A : Type}.
Variable eqb : A -> A -> bool.
Hypothesis eqb_eq : forall x y, eqb x y = true <-> x = y.

Lemma set_has_In : forall x (s : JsSet.t A), JsSet.has eqb x s = true <-> In x s.
Proof.
  intros x s. unfold JsSet.has. rewrite existsb_exists. split.
  - intros [y [Hy E]]. apply eqb_eq in E. subst. exact Hy.
  - intro H. exists x. split; [exact H | now apply eqb_eq].
Qed.

Lemma set_In_add : forall x y (s : JsSet.t A),
  In y (JsSet.add eqb x s) <-> y = x \/ In y s.
Proof.
  intros x y s. unfold JsSet.add.
  destruct (JsSet.has eqb x s) eqn:E.
  - apply set_has_In in E. split; [auto | intros [-> | H]; assumption].
  - rewrite in_app_iff. simpl. intuition.
Qed.

Lemma set_In_delete : forall x y (s : JsSet.t A),
  In y (JsSet.delete eqb x s) <-> In y s /\ y <> x.
Proof.
  intros x y s. unfold JsSet.delete. rewrite filter_In, negb_true_iff.
  split; intros [H1 H2]; split; auto.
  - intros ->. rewrite (proj2 (eqb_eq x x) eq_refl) in H2. discriminate.
  - destruct (eqb x y) eqn:E; [|reflexivity].
    apply eqb_eq in E. congruence.
Qed.

Lemma set_NoDup_add : forall x (s : JsSet.t A), NoDup s -> NoDup (JsSet.add eqb x s).
Proof.
  intros x s H. unfold JsSet.add.
  destruct (JsSet.has eqb x s) eqn:E; [exact H|].
  assert (Hx : ~ In x s).
  { intro Hin. apply set_has_In in Hin. congruence. }
  clear E. induction H as [| y l Hy Hl IH]; simpl.
  - constructor; [intros [] | constructor].
  - constructor.
    + rewrite in_app_iff. simpl. intros [H1 | [H1 | []]]; [auto|].
      subst. apply Hx. now left.
    + apply IH. intro H1. apply Hx. now right.
Qed.

Lemma set_NoDup_delete : forall x (s : JsSet.t A), NoDup s -> NoDup (JsSet.delete eqb x s).
Proof. intros x s H. unfold JsSet.delete. now apply NoDup_filter. Qed.
End SetFacts.

Section MapFacts.
Context {K V : Type}.
Variable eqb : K -> K -> bool.
Hypothesis eqb_eq : forall x y, eqb x y = true <-> x = y.

Lemma eqb_same : forall k, eqb k k = true.
Proof. intro k. now apply eqb_eq. Qed.

Lemma eqb_diff : forall k k', k <> k' -> eqb k k' = false.
Proof.
  intros k k' H. destruct (eqb k k') eqn:E; [|reflexivity].
  apply eqb_eq in E. contradiction.
Qed.

Lemma map_get_set_eq : forall k v (m : JsMap.t K V),
  JsMap.get eqb k (JsMap.set eqb k v m) = Some v.
Proof.
  intros k v m. induction m as [| [k' v'] m IH]; simpl.
  - now rewrite eqb_same.
  - destruct (eqb k k') eqn:E; simpl; rewrite E; [reflexivity | exact IH].
Qed.

Lemma map_get_set_neq : forall k k' v (m : JsMap.t K V),
  k <> k' -> JsMap.get eqb k' (JsMap.set eqb k v m) = JsMap.get eqb k' m.
Proof.
  intros k k' v m Hne. induction m as [| [k0 v0] m IH]; simpl.
  - rewrite eqb_diff; [reflexivity | congruence].
  - destruct (eqb k k0) eqn:E; simpl.
    + apply eqb_eq in E. subst k0. rewrite eqb_diff; [reflexivity | congruence].
    + now rewrite IH.
Qed.

Lemma map_get_delete_eq : forall k (m : JsMap.t K V),
  JsMap.get eqb k (JsMap.delete eqb k m) = None.
Proof.
  intros k m. induction m as [| [k' v'] m IH]; simpl; [reflexivity|].
  destruct (eqb k k') eqn:E; simpl; [exact IH | now rewrite E].
Qed.

Lemma map_get_delete_neq : forall k k' (m : JsMap.t K V),
  k <> k' -> JsMap.get eqb k' (JsMap.delete eqb k m) = JsMap.get eqb k' m.
Proof.
  intros k k' m Hne. induction m as [| [k0 v0] m IH]; simpl; [reflexivity|].
  destruct (eqb k k0) eqn:E; simpl.
  - apply eqb_eq in E. subst k0. rewrite eqb_diff; [exact IH | congruence].
  - now rewrite IH.
Qed.

Lemma map_set_set : forall k v v0 (m : JsMap.t K V),
  JsMap.set eqb k v (JsMap.set eqb k v0 m) = JsMap.set eqb k v m.
Proof.
  intros k v v0 m. induction m as [| [k' v'] m IH]; simpl.
  - now rewrite eqb_same.
  - destruct (eqb k k') eqn:E; simpl; rewrite E; [reflexivity | now rewrite IH].
Qed.

Lemma map_delete_set : forall k v (m : JsMap.t K V),
  JsMap.delete eqb k (JsMap.set eqb k v m) = JsMap.delete eqb k m.
Proof.
  intros k v m. unfold JsMap.delete.
  induction m as [| [k' v'] m IH]; simpl.
  - now rewrite eqb_same.
  - destruct (eqb k k') eqn:E; simpl; rewrite E; simpl; [reflexivity | now rewrite IH].
Qed.

Lemma map_get_In : forall k v (m : JsMap.t K V),
  JsMap.get eqb k m = Some v -> In (k, v) m.
Proof.
  intros k v m. induction m as [| [k' v'] m IH]; simpl; [discriminate|].
  destruct (eqb k k') eqn:E.
  - intro H. inversion H. subst. apply eqb_eq in E. subst. now left.
  - intro H. right. now apply IH.
Qed.

Lemma map_In_keys_get : forall k (m : JsMap.t K V),
  In k (JsMap.keys m) <-> JsMap.get eqb k m <> None.
Proof.
  intros k m. unfold JsMap.keys. induction m as [| [k' v'] m IH]; simpl.
  - split; [intros [] | congruence].
  - destruct (eqb k k') eqn:E.
    + apply eqb_eq in E. subst. split; [discriminate | auto].
    + rewrite <- IH. split; [intros [H | H]; [|exact H] | auto].
      subst. rewrite eqb_same in E. discriminate.
Qed.

Lemma map_keys_set : forall k v (m : JsMap.t K V),
  JsMap.keys (JsMap.set eqb k v m)
  = if JsMap.has eqb k m then JsMap.keys m else JsMap.keys m ++ [k].
Proof.
  intros k v m. unfold JsMap.keys, JsMap.has.
  induction m as [| [k' v'] m IH]; simpl; [reflexivity|].
  destruct (eqb k k') eqn:E; simpl; [reflexivity|].
  rewrite IH. now destruct (JsMap.get eqb k m).
Qed.

Lemma map_NoDup_set : forall k v (m : JsMap.t K V),
  NoDup (JsMap.keys m) -> NoDup (JsMap.keys (JsMap.set eqb k v m)).
Proof.
  intros k v m H. rewrite map_keys_set.
  destruct (JsMap.has eqb k m) eqn:E; [exact H|].
  assert (Hk : ~ In k (JsMap.keys m)).
  { rewrite map_In_keys_get. unfold JsMap.has in E.
    destruct (JsMap.get eqb k m); [discriminate | auto]. }
  clear E. induction H as [| y l Hy Hl IH]; simpl.
  - constructor; [intros [] | constructor].
  - constructor.
    + rewrite in_app_iff. simpl. intros [H1 | [H1 | []]]; [auto|].
      subst. apply Hk. now left.
    + apply IH. intro H1. apply Hk. now right.
Qed.

Lemma map_NoDup_delete : forall k (m : JsMap.t K V),
  NoDup (JsMap.keys m) -> NoDup (JsMap.keys (JsMap.delete eqb k m)).
Proof.
  intros k m. unfold JsMap.keys, JsMap.delete.
  induction m as [| [k' v'] m IH]; simpl; intro H; [constructor|].
  inversion H as [| ? ? Hk Hm]; subst.
  destruct (eqb k k'); simpl; [now apply IH|].
  constructor; [|now apply IH].
  intro Hin. apply Hk. rewrite in_map_iff in *.
  destruct Hin as [x [Hx Hf]]. apply filter_In in Hf. exists x. tauto.
Qed.

Lemma map_Forall_set : forall (P : K * V -> Prop) k v (m : JsMap.t K V),
  Forall P m -> P (k, v) -> Forall P (JsMap.set eqb k v m).
Proof.
  intros P k v m H Hv. induction H as [| [k' v'] m Hx Hm IH]; simpl.
  - constructor; [exact Hv | constructor].
  - destruct (eqb k k') eqn:E.
    + apply eqb_eq in E. subst. constructor; assumption.
    + constructor; assumption.
Qed.

Lemma map_Forall_delete : forall (P : K * V -> Prop) k (m : JsMap.t K V),
  Forall P m -> Forall P (JsMap.delete eqb k m).
Proof.
  intros P k m H. unfold JsMap.delete. rewrite Forall_forall in *.
  intros x Hx. apply filter_In in Hx. apply H. tauto.
Qed.
End MapFacts.

(** ** Facts about the monad and the loops *)

Lemma bind_run : forall {A B} (c : M A) (k : A -> M B) s,
  bind c k s = match c s with
               | (Ok a, s') => k a s'
               | (Throw e, s') => (Throw e, s')
               end.
Proof. reflexivity. Qed.

Lemma bind_ok : forall {A B} {c : M A} (k : A -> M B) {s a s'},
  c s = (Ok a, s') -> bind c k s = k a s'.
Proof. intros A B c k s a s' H. unfold bind. now rewrite H. Qed.

Lemma call_run : forall a s,
  call a s
  = (match platform (trace (world s)) a with
     | None => Ok tt
     | Some e => Throw e
     end,
     mkState (mm s) (set_trace (trace (world s) ++ [a]) (world s))).
Proof.
  intros a s. unfold call, bind, get_world, record, put_world, ret, throw. simpl.
  now destruct (platform (trace (world s)) a).
Qed.

Lemma attempted_app : forall tr acts1 out1 acts2 out2,
  attempted tr acts1 out1 ->
  attempted (tr ++ out1) acts2 out2 ->
  attempted tr (acts1 ++ acts2) (out1 ++ out2).
Proof.
  intros tr acts1 out1 acts2 out2 H. revert acts2 out2.
  induction H as [tr | tr a acts out Hp H IH | tr a e acts out Hp H IH];
    intros acts2 out2 H2; simpl.
  - now rewrite app_nil_r in H2.
  - apply attempted_ok; [exact Hp|]. apply IH.
    now rewrite <- app_assoc.
  - apply attempted_throw; [exact Hp|]. apply IH.
    now rewrite <- app_assoc.
Qed.

Lemma performs_guarded_call : forall a,
  performs (try_catch (call a) (warn (warn_text a))) [a].
Proof.
  intros a s. unfold try_catch. rewrite call_run.
  destruct (platform (trace (world s)) a) as [e|] eqn:E.
  - eexists. exists [a; ConsoleWarn (warn_text a) e].
    split; [reflexivity|]. simpl. repeat split.
    + now rewrite <- app_assoc.
    + apply attempted_throw; [exact E | constructor].
  - eexists. exists [a]. split; [reflexivity|]. simpl. repeat split.
    apply attempted_ok; [exact E | constructor].
Qed.

Lemma performs_guarded_clearTimeout : forall id,
  performs (try_catch (global_clearTimeout id) (warn "Error clearing timeout:"))
           [GlobalClearTimeout id].
Proof.
  intros id s. unfold try_catch, global_clearTimeout. rewrite bind_run, call_run.
  destruct (platform (trace (world s)) (GlobalClearTimeout id)) as [e|] eqn:E.
  - eexists. exists [GlobalClearTimeout id; ConsoleWarn "Error clearing timeout:" e].
    split; [reflexivity|]. simpl. repeat split.
    + now rewrite <- app_assoc.
    + apply (@attempted_throw _ _ _ [] [] E). constructor.
  - eexists. exists [GlobalClearTimeout id]. split; [reflexivity|]. simpl.
    repeat split. apply attempted_ok; [exact E | constructor].
Qed.

Lemma performs_guarded_clearInterval : forall id,
  performs (try_catch (global_clearInterval id) (warn "Error clearing interval:"))
           [GlobalClearInterval id].
Proof.
  intros id s. unfold try_catch, global_clearInterval. rewrite bind_run, call_run.
  destruct (platform (trace (world s)) (GlobalClearInterval id)) as [e|] eqn:E.
  - eexists. exists [GlobalClearInterval id; ConsoleWarn "Error clearing interval:" e].
    split; [reflexivity|]. simpl. repeat split.
    + now rewrite <- app_assoc.
    + apply (@attempted_throw _ _ _ [] [] E). constructor.
  - eexists. exists [GlobalClearInterval id]. split; [reflexivity|]. simpl.
    repeat split. apply attempted_ok; [exact E | constructor].
Qed.

Lemma performs_for_each : forall {A} (body : A -> M unit) (acts : A -> list Action) xs,
  (forall x, performs (body x) (acts x)) ->
  performs (for_each xs body) (flat_map acts xs).
Proof.
  intros A body acts xs H. induction xs as [| x xs IH]; intro s; simpl.
  - exists s, []. repeat split; [now rewrite app_nil_r | constructor].
  - destruct (H x s) as (s1 & out1 & E1 & M1 & T1 & A1).
    destruct (IH s1) as (s2 & out2 & E2 & M2 & T2 & A2).
    exists s2, (out1 ++ out2). rewrite (bind_ok _ E1). repeat split.
    + exact E2.
    + congruence.
    + rewrite T2, T1. now rewrite app_assoc.
    + apply attempted_app; [exact A1|]. now rewrite <- T1.
Qed.

Lemma flat_map_singleton : forall {A B} (f : A -> B) xs,
  flat_map (fun x => [f x]) xs = map f xs.
Proof. intros A B f xs. induction xs; simpl; congruence. Qed.

Lemma bind_get_mm : forall {B} (k : MemoryManager -> M B) s,
  bind get_mm k s = k (mm s) s.
Proof. reflexivity. Qed.

Lemma bind_put_mm : forall {B} m (k : unit -> M B) s,
  bind (put_mm m) k s = k tt (mkState m (world s)).
Proof. reflexivity. Qed.

Ltac step_mm :=
  (rewrite bind_get_mm || rewrite bind_put_mm);
  cbn [mm world eventListeners timers observers intervals timeouts references
       cleanupCallbacks set_eventListeners set_observers set_intervals
       set_timeouts set_cleanupCallbacks JsMap.clear JsSet.clear].

Lemma performs_detach_phase : forall (els : JsMap.t Element (list ListenerInfo)),
  performs
    (for_each els (fun entry =>
       for_each (snd entry) (fun listener =>
         try_catch
           (call (ElRemoveEventListener (fst entry) (li_event listener)
                    (li_handler listener) (li_options listener)))
           (fun error => record (ConsoleWarn "Error removing event listener:" error)))))
    (flat_map (fun entry => map (detach_call (fst entry)) (snd entry)) els).
Proof.
  intro els. apply performs_for_each. intro entry.
  rewrite <- flat_map_singleton. apply performs_for_each. intro l.
  exact (performs_guarded_call (detach_call (fst entry) l)).
Qed.

Lemma performs_disconnect_phase : forall (obs : JsSet.t Observer),
  performs
    (for_each obs (fun observer =>
       try_catch (call (ObserverDisconnect observer))
         (fun error => record (ConsoleWarn "Error disconnecting observer:" error))))
    (map ObserverDisconnect obs).
Proof.
  intro obs. rewrite <- flat_map_singleton. apply performs_for_each. intro o.
  exact (performs_guarded_call (ObserverDisconnect o)).
Qed.

Lemma performs_timeout_phase : forall (ids : JsSet.t TimerId),
  performs
    (for_each ids (fun timeoutId =>
       try_catch (global_clearTimeout timeoutId)
         (fun error => record (ConsoleWarn "Error clearing timeout:" error))))
    (map GlobalClearTimeout ids).
Proof.
  intro ids. rewrite <- flat_map_singleton. apply performs_for_each. intro id.
  exact (performs_guarded_clearTimeout id).
Qed.

Lemma performs_interval_phase : forall (ids : JsSet.t TimerId),
  performs
    (for_each ids (fun intervalId =>
       try_catch (global_clearInterval intervalId)
         (fun error => record (ConsoleWarn "Error clearing interval:" error))))
    (map GlobalClearInterval ids).
Proof.
  intro ids. rewrite <- flat_map_singleton. apply performs_for_each. intro id.
  exact (performs_guarded_clearInterval id).
Qed.

Lemma performs_callback_phase : forall (cbs : JsSet.t Fn),
  performs
    (for_each cbs (fun callback =>
       try_catch (call (CallFn callback))
         (fun error => record (ConsoleWarn "Error in cleanup callback:" error))))
    (map CallFn cbs).
Proof.
  intro cbs. rewrite <- flat_map_singleton. apply performs_for_each. intro f.
  exact (performs_guarded_call (CallFn f)).
Qed.

(** [cleanupAll] from any state: it returns normally, attempts the planned
    teardown, and clears the five collections it iterates. *)
Lemma cleanupAll_run : forall s,
  exists w' out,
    cleanupAll s
    = (Ok tt,
       mkState (mkMemoryManager [] (timers (mm s)) [] [] []
                                (references (mm s)) []) w')
    /\ trace w' = trace (world s) ++ out
    /\ attempted (trace (world s)) (planned_teardown (mm s)) out.
Proof.
  intro s. unfold cleanupAll.
  step_mm. cbv zeta.
  destruct (performs_detach_phase (eventListeners (mm s)) s)
    as (s1 & out1 & E1 & M1 & T1 & A1).
  rewrite (bind_ok _ E1); cbv beta. do 3 step_mm.
  destruct (performs_disconnect_phase (observers (mm s1))
              (mkState (set_eventListeners [] (mm s1)) (world s1)))
    as (s2 & out2 & E2 & M2 & T2 & A2).
  rewrite (bind_ok _ E2); cbv beta. do 3 step_mm.
  destruct (performs_timeout_phase (timeouts (mm s2))
              (mkState (set_observers [] (mm s2)) (world s2)))
    as (s3 & out3 & E3 & M3 & T3 & A3).
  rewrite (bind_ok _ E3); cbv beta. do 3 step_mm.
  destruct (performs_interval_phase (intervals (mm s3))
              (mkState (set_timeouts [] (mm s3)) (world s3)))
    as (s4 & out4 & E4 & M4 & T4 & A4).
  rewrite (bind_ok _ E4); cbv beta. do 3 step_mm.
  destruct (performs_callback_phase (cleanupCallbacks (mm s4))
              (mkState (set_intervals [] (mm s4)) (world s4)))
    as (s5 & out5 & E5 & M5 & T5 & A5).
  rewrite (bind_ok _ E5); cbv beta. do 2 step_mm.
  cbn [mm world] in *.
  exists (world s5), (out1 ++ out2 ++ out3 ++ out4 ++ out5).
  assert (T2' : trace (world s2) = trace (world s) ++ out1 ++ out2)
    by (rewrite T2, T1, <- app_assoc; reflexivity).
  assert (T3' : trace (world s3) = trace (world s) ++ out1 ++ out2 ++ out3)
    by (rewrite T3, T2', <- !app_assoc; reflexivity).
  assert (T4' : trace (world s4) = trace (world s) ++ out1 ++ out2 ++ out3 ++ out4)
    by (rewrite T4, T3', <- !app_assoc; reflexivity).
  rewrite M1 in *. rewrite M2 in *. rewrite M3 in *. rewrite M4 in *.
  rewrite M5 in *.
  cbn [eventListeners timers observers intervals timeouts references
       cleanupCallbacks set_eventListeners set_observers set_intervals
       set_timeouts set_cleanupCallbacks] in *.
  split; [reflexivity|]. split.
  - rewrite T5, T4', <- !app_assoc. reflexivity.
  - unfold planned_teardown.
    apply attempted_app; [exact A1|]. rewrite <- T1.
    apply attempted_app; [exact A2|].
    replace (trace (world s1) ++ out2) with (trace (world s2)) by exact T2.
    apply attempted_app; [exact A3|].
    replace (trace (world s2) ++ out3) with (trace (world s3)) by exact T3.
    apply attempted_app; [exact A4|].
    replace (trace (world s3) ++ out4) with (trace (world s4)) by exact T4.
    exact A5.
Qed.

Lemma planned_teardown_calls : forall m,
  Forall (fun a => is_console a = false) (planned_teardown m).
Proof.
  intro m. unfold planned_teardown. rewrite !Forall_app. repeat split;
    rewrite Forall_forall; intros a Ha.
  - apply in_flat_map in Ha. destruct Ha as [entry [_ Ha]].
    apply in_map_iff in Ha. destruct Ha as [l [<- _]]. reflexivity.
  - apply in_map_iff in Ha. destruct Ha as [x [<- _]]. reflexivity.
  - apply in_map_iff in Ha. destruct Ha as [x [<- _]]. reflexivity.
  - apply in_map_iff in Ha. destruct Ha as [x [<- _]]. reflexivity.
  - apply in_map_iff in Ha. destruct Ha as [x [<- _]]. reflexivity.
Qed.


(** In an attempt, the call that throws is followed by its warning. *)
Lemma attempted_warned : forall tr acts out,
  attempted tr acts out ->
  forall pre a post e,
    out = pre ++ a :: post ->
    is_console a = false ->
    platform (tr ++ pre) a = Some e ->
    exists post', post = ConsoleWarn (warn_text a) e :: post'.
Proof.
  intros tr acts out H.
  induction H as [tr | tr a0 acts out Hp H IH | tr a0 e0 acts out Hp H IH];
    intros pre a post e Hout Hc He.
  - destruct pre; discriminate.
  - destruct pre as [| b pre]; simpl in Hout; inversion Hout; subst.
    + rewrite app_nil_r in He. congruence.
    + apply (IH pre a post e); [reflexivity | exact Hc|].
      now rewrite <- app_assoc.
  - destruct pre as [| b pre]; simpl in Hout; inversion Hout as [[Hb Hrest]]; subst.
    + rewrite app_nil_r in He. rewrite Hp in He. inversion He. subst.
      now exists out.
    + destruct pre as [| c pre]; simpl in Hrest; inversion Hrest; subst.
      * discriminate.
      * apply (IH pre a post e); [reflexivity | exact Hc|].
        now rewrite <- app_assoc.
Qed.

(** In an attempt, a warning is only ever the report of the call just
    before it. *)
Lemma attempted_warning_cause : forall tr acts out,
  attempted tr acts out ->
  Forall (fun a => is_console a = false) acts ->
  forall pre text e post,
    out = pre ++ ConsoleWarn text e :: post ->
    exists pre' a, pre = pre' ++ [a] /\ is_console a = false
                   /\ platform (tr ++ pre') a = Some e /\ text = warn_text a.
Proof.
  intros tr acts out H.
  induction H as [tr | tr a0 acts out Hp H IH | tr a0 e0 acts out Hp H IH];
    intros F pre text e post Hout; inversion F as [| ? ? Ha Hacts]; subst.
  - destruct pre; discriminate.
  - destruct pre as [| b pre]; simpl in Hout; inversion Hout; subst.
    + discriminate.
    + destruct (IH Hacts pre text e post eq_refl) as (pre' & a & -> & Hc & He & Ht).
      exists (b :: pre'), a. repeat split; auto.
      now rewrite <- app_assoc in He.
  - destruct pre as [| b pre]; simpl in Hout; inversion Hout as [[Hb Hrest]]; subst.
    + discriminate.
    + destruct pre as [| c pre]; simpl in Hrest; inversion Hrest; subst.
      * exists [], b. rewrite app_nil_r. repeat split; auto.
      * destruct (IH Hacts pre text e post eq_refl) as (pre' & a & -> & Hc & He & Ht).
        exists (b :: ConsoleWarn (warn_text b) e0 :: pre'), a. repeat split; auto.
        now rewrite <- app_assoc in He.
Qed.

(** ** The methods, run from a state *)

Lemma addEventListener_run : forall element event handler options s,
  let opts := match options with Some o => o | None => [] end in
  let bound := Bound handler (next_serial (world s)) in
  let info := mkListenerInfo event bound handler opts element in
  let listeners :=
    match JsMap.get Nat.eqb element (eventListeners (mm s)) with
    | Some l => l
    | None => []
    end in
  let attach := ElAddEventListener element event bound opts in
  addEventListener element event handler options s
  = (match platform (trace (world s)) attach with
     | None => Ok bound
     | Some e => Throw e
     end,
     mkState
       (set_eventListeners
          (JsMap.set Nat.eqb element (listeners ++ [info]) (eventListeners (mm s)))
          (mm s))
       (set_trace (trace (world s) ++ [attach])
          (set_next_serial (S (next_serial (world s))) (world s)))).
Proof.
  intros element event handler options s. cbv zeta.
  unfold addEventListener, fresh, call, record, bind, get_world, put_world,
    get_mm, put_mm, ret, throw, JsMap.has.
  cbn [mm world fst snd].
  destruct (JsMap.get Nat.eqb element (eventListeners (mm s))) as [ls|] eqn:G;
    cbn [negb mm world set_eventListeners eventListeners].
  - rewrite G. cbn [mm world trace set_next_serial set_eventListeners].
    now destruct (platform _ _).
  - rewrite (map_get_set_eq Nat.eqb Nat.eqb_eq).
    cbn [mm world set_eventListeners eventListeners].
    rewrite (map_set_set Nat.eqb Nat.eqb_eq).
    cbn [mm world trace set_next_serial set_eventListeners].
    now destruct (platform _ _).
Qed.


Lemma delete_found_incl : forall {A} (p : A -> bool) l x,
  In x (delete_found p l) -> In x l.
Proof.
  intros A p l x. induction l as [| y l IH]; simpl; [auto|].
  destruct (p y); simpl; intuition.
Qed.

Lemma removeEventListener_run : forall element event handler s,
  removeEventListener element event handler s
  = match JsMap.get Nat.eqb element (eventListeners (mm s)) with
    | None => (Ok tt, s)
    | Some listeners =>
        match find (listener_matches event handler) listeners with
        | None => (Ok tt, s)
        | Some l =>
            let detach :=
              ElRemoveEventListener element event (li_handler l) (li_options l) in
            let w' := set_trace (trace (world s) ++ [detach]) (world s) in
            match platform (trace (world s)) detach with
            | Some e => (Throw e, mkState (mm s) w')
            | None =>
                let rest := delete_found (listener_matches event handler) listeners in
                (Ok tt,
                 mkState
                   (set_eventListeners
                      (if Nat.eqb (List.length rest) 0
                       then JsMap.delete Nat.eqb element (eventListeners (mm s))
                       else JsMap.set Nat.eqb element rest (eventListeners (mm s)))
                      (mm s))
                   w')
            end
        end
    end.
Proof.
  intros element event handler s. destruct s as [m w].
  unfold removeEventListener, call, record, bind, get_world, put_world,
    get_mm, put_mm, ret, throw, JsMap.has.
  cbn [mm world fst snd].
  destruct (JsMap.get Nat.eqb element (eventListeners m)) as [ls|] eqn:G;
    cbn [negb]; [|reflexivity].
  destruct (find (listener_matches event handler) ls) as [l|]; [|reflexivity].
  cbv zeta. cbn [mm world trace].
  destruct (platform (trace w) _) as [e|]; [reflexivity|].
  cbn [mm world set_eventListeners eventListeners].
  destruct (Nat.eqb (List.length (delete_found (listener_matches event handler) ls)) 0);
    [|reflexivity].
  cbn [mm world set_eventListeners eventListeners].
  now rewrite (map_delete_set Nat.eqb Nat.eqb_eq).
Qed.

Lemma createObserver_run : forall observerClass callback options s,
  let opts := match options with Some o => o | None => [] end in
  let construct := NewObserver observerClass callback opts in
  let w1 := set_trace (trace (world s) ++ [construct]) (world s) in
  createObserver observerClass callback options s
  = match platform (trace (world s)) construct with
    | Some e => (Throw e, mkState (mm s) w1)
    | None =>
        (Ok (next_serial (world s)),
         mkState
           (set_observers
              (JsSet.add Nat.eqb (next_serial (world s)) (observers (mm s))) (mm s))
           (set_next_serial (S (next_serial (world s))) w1))
    end.
Proof.
  intros observerClass callback options s. cbv zeta.
  unfold createObserver, fresh, call, record, bind, get_world, put_world,
    get_mm, put_mm, ret, throw.
  cbn [mm world fst snd trace].
  now destruct (platform _ _).
Qed.

Lemma setTimeout_run : forall callback delay s,
  let id := next_timer (world s) in
  let thunk := TimeoutThunk callback in
  setTimeout callback delay s
  = (Ok id,
     mkState
       (set_timeouts (JsSet.add Nat.eqb id (timeouts (mm s))) (mm s))
       (set_next_timer (S id)
          (set_pending
             (JsMap.set Nat.eqb id (mkTimer OneShot thunk delay) (pending (world s)))
             (set_trace (trace (world s) ++ [GlobalSetTimeout thunk delay])
                        (world s))))).
Proof. intros callback delay s. reflexivity. Qed.

Lemma setInterval_run : forall callback delay s,
  let id := next_timer (world s) in
  let thunk := CallbackThunk callback in
  setInterval callback delay s
  = (Ok id,
     mkState
       (set_intervals (JsSet.add Nat.eqb id (intervals (mm s))) (mm s))
       (set_next_timer (S id)
          (set_pending
             (JsMap.set Nat.eqb id (mkTimer Repeating thunk delay) (pending (world s)))
             (set_trace (trace (world s) ++ [GlobalSetInterval thunk delay])
                        (world s))))).
Proof. intros callback delay s. reflexivity. Qed.

Lemma clearTimeout_run : forall timeoutId s,
  clearTimeout timeoutId s
  = if JsSet.has Nat.eqb timeoutId (timeouts (mm s)) then
      let w1 := set_trace (trace (world s) ++ [GlobalClearTimeout timeoutId])
                          (world s) in
      match platform (trace (world s)) (GlobalClearTimeout timeoutId) with
      | Some e => (Throw e, mkState (mm s) w1)
      | None =>
          (Ok tt,
           mkState
             (set_timeouts (JsSet.delete Nat.eqb timeoutId (timeouts (mm s))) (mm s))
             (set_pending (JsMap.delete Nat.eqb timeoutId (pending (world s))) w1))
      end
    else (Ok tt, s).
Proof.
  intros timeoutId s. destruct s as [m w].
  unfold clearTimeout, global_clearTimeout, call, record, bind, get_world,
    put_world, get_mm, put_mm, ret, throw.
  cbn [mm world fst snd trace].
  destruct (JsSet.has Nat.eqb timeoutId (timeouts m)); [|reflexivity].
  now destruct (platform _ _).
Qed.

Lemma clearInterval_run : forall intervalId s,
  clearInterval intervalId s
  = if JsSet.has Nat.eqb intervalId (intervals (mm s)) then
      let w1 := set_trace (trace (world s) ++ [GlobalClearInterval intervalId])
                          (world s) in
      match platform (trace (world s)) (GlobalClearInterval intervalId) with
      | Some e => (Throw e, mkState (mm s) w1)
      | None =>
          (Ok tt,
           mkState
             (set_intervals (JsSet.delete Nat.eqb intervalId (intervals (mm s))) (mm s))
             (set_pending (JsMap.delete Nat.eqb intervalId (pending (world s))) w1))
      end
    else (Ok tt, s).
Proof.
  intros intervalId s. destruct s as [m w].
  unfold clearInterval, global_clearInterval, call, record, bind, get_world,
    put_world, get_mm, put_mm, ret, throw.
  cbn [mm world fst snd trace].
  destruct (JsSet.has Nat.eqb intervalId (intervals m)); [|reflexivity].
  now destruct (platform _ _).
Qed.

(** What a firing timer does to the registry: the wrapper of a tracked
    one-shot timer forgets its own handle, nothing else changes. *)
Lemma fire_registry : forall id s,
  mm (snd (fire id s))
  = match JsMap.get Nat.eqb id (pending (world s)) with
    | Some tm =>
        match tm_thunk tm with
        | TimeoutThunk _ =>
            set_timeouts (JsSet.delete Nat.eqb id (timeouts (mm s))) (mm s)
        | _ => mm s
        end
    | None => mm s
    end.
Proof.
  intros id s. unfold fire, run_thunk, call, record, bind, get_world, put_world,
    get_mm, put_mm, ret, throw.
  cbn [mm world fst snd].
  destruct (JsMap.get Nat.eqb id (pending (world s))) as [[kind thunk delay]|];
    [|reflexivity].
  cbn [tm_kind tm_thunk].
  destruct kind, thunk; cbn [mm world fst snd trace]; try reflexivity;
    now destruct (platform _ _).
Qed.

(** The error relay and the guarded invocation leave the registry alone. *)
Lemma handleScrapingError_registry : forall message s,
  mm (snd (handleScrapingError message s)) = mm s.
Proof.
  intros message s.
  unfold handleScrapingError, try_catch, date_now, location_href.
  rewrite !bind_run. cbn [bind get_world ret]. cbv iota beta.
  rewrite call_run. now destruct (platform _ _).
Qed.

Lemma on_error_registry : forall event s, mm (snd (on_error event s)) = mm s.
Proof.
  intros [v] s. unfold on_error. rewrite bind_run. cbn [log log_when CONTENT_DEBUG ret].
  cbv iota beta. rewrite bind_run. cbn [ev_error].
  destruct v; cbn [get_message throw ret snd]; try reflexivity;
    apply handleScrapingError_registry.
Qed.

Lemma on_unhandledrejection_registry : forall event s,
  mm (snd (on_unhandledrejection event s)) = mm s.
Proof.
  intros event s. unfold on_unhandledrejection. rewrite bind_run.
  cbn [log log_when CONTENT_DEBUG ret]. cbv iota beta.
  apply handleScrapingError_registry.
Qed.

Lemma safeContentExecute_registry : forall debug fn context args s,
  mm (snd (safeContentExecute_when debug fn context args s)) = mm s.
Proof.
  intros debug fn context args s.
  unfold safeContentExecute_when, try_catch, await_race, date_now.
  rewrite bind_run. cbn [bind get_world ret]. cbv iota beta.
  destruct (fn args) as [e | after [v | e] |]; rewrite ?bind_run;
    unfold global_setTimeout, record, bind, get_world, put_world, ret;
    cbn [mm world fst snd];
    try destruct (after <? MAX_EXECUTION_TIME)%Z;
    unfold advance, settle, fire, run_thunk, throw, bind, get_world, put_world,
      ret, log_when;
    cbn [mm world fst snd pending set_clock set_next_timer set_pending set_trace];
    rewrite ?(map_get_set_eq Nat.eqb Nat.eqb_eq); cbn [tm_kind tm_thunk fst snd];
    repeat match goal with
           | |- context [if ?b then _ else _] => destruct b
           end;
    reflexivity.
Qed.

(** ** What every reachable state satisfies *)

Lemma NoDup_add_nat : forall x (s : JsSet.t nat),
  NoDup s -> NoDup (JsSet.add Nat.eqb x s).
Proof. exact (set_NoDup_add Nat.eqb Nat.eqb_eq). Qed.

Lemma NoDup_delete_nat : forall x (s : JsSet.t nat),
  NoDup s -> NoDup (JsSet.delete Nat.eqb x s).
Proof. exact (set_NoDup_delete Nat.eqb). Qed.

Lemma NoDup_add_Fn : forall x (s : JsSet.t Fn),
  NoDup s -> NoDup (JsSet.add Fn_eqb x s).
Proof. exact (set_NoDup_add Fn_eqb Fn_eqb_eq). Qed.

Lemma NoDup_delete_Fn : forall x (s : JsSet.t Fn),
  NoDup s -> NoDup (JsSet.delete Fn_eqb x s).
Proof. exact (set_NoDup_delete Fn_eqb). Qed.

Ltac registry_fields H :=
  destruct H as [Ht Hr Ho Hn Hob Hto Hi Hc]; constructor;
  cbn [eventListeners timers observers intervals timeouts references
       cleanupCallbacks set_eventListeners set_observers set_intervals
       set_timeouts set_cleanupCallbacks];
  auto using NoDup_add_nat, NoDup_delete_nat, NoDup_add_Fn, NoDup_delete_Fn,
             NoDup_nil.

Lemma registry_ok_new : registry_ok new_MemoryManager.
Proof. constructor; simpl; auto using NoDup_nil. Qed.

Lemma registry_ok_exec_op : forall op s,
  registry_ok (mm s) -> registry_ok (mm (exec_op op s)).
Proof.
  intros op s H. destruct op; cbn [exec_op].
  - rewrite addEventListener_run. cbn [snd mm]. registry_fields H.
    + now apply (map_NoDup_set Nat.eqb Nat.eqb_eq).
    + apply (map_Forall_set Nat.eqb Nat.eqb_eq); [exact Hn|].
      cbn [snd]. intro E. apply app_eq_nil in E. destruct E as [_ E]. discriminate.
  - rewrite removeEventListener_run.
    destruct (JsMap.get Nat.eqb element (eventListeners (mm s))) as [ls|];
      [|exact H].
    destruct (find (listener_matches event handler) ls) as [l|]; [|exact H].
    cbv zeta. destruct (platform _ _); [exact H|]. cbn [snd mm].
    destruct (Nat.eqb (List.length (delete_found (listener_matches event handler) ls)) 0)
      eqn:E; registry_fields H.
    + now apply (map_NoDup_delete Nat.eqb).
    + now apply map_Forall_delete.
    + now apply (map_NoDup_set Nat.eqb Nat.eqb_eq).
    + apply (map_Forall_set Nat.eqb Nat.eqb_eq); [exact Hn|].
      cbn [snd]. intro E'. rewrite E' in E. discriminate.
  - rewrite createObserver_run. cbv zeta.
    destruct (platform _ _); [exact H|]. cbn [snd mm]. registry_fields H.
  - rewrite setTimeout_run. cbn [snd mm]. registry_fields H.
  - rewrite setInterval_run. cbn [snd mm]. registry_fields H.
  - rewrite clearTimeout_run.
    destruct (JsSet.has Nat.eqb timeoutId (timeouts (mm s))); [|exact H].
    cbv zeta. destruct (platform _ _); [exact H|]. cbn [snd mm]. registry_fields H.
  - rewrite clearInterval_run.
    destruct (JsSet.has Nat.eqb intervalId (intervals (mm s))); [|exact H].
    cbv zeta. destruct (platform _ _); [exact H|]. cbn [snd mm]. registry_fields H.
  - cbn [addCleanupCallback bind get_mm put_mm snd mm]. registry_fields H.
  - cbn [removeCleanupCallback bind get_mm put_mm snd mm]. registry_fields H.
  - destruct (cleanupAll_run s) as (w' & out & E & _). rewrite E. cbn [snd mm].
    registry_fields H.
  - exact H.
  - now rewrite handleScrapingError_registry.
  - unfold safeContentExecute. now rewrite safeContentExecute_registry.
  - now rewrite on_error_registry.
  - now rewrite on_unhandledrejection_registry.
  - rewrite fire_registry.
    destruct (JsMap.get Nat.eqb id (pending (world s))) as [tm|]; [|exact H].
    destruct (tm_thunk tm); try exact H. registry_fields H.
  - exact H.
Qed.

Lemma registry_ok_exec : forall ops s,
  registry_ok (mm s) -> registry_ok (mm (exec ops s)).
Proof.
  induction ops as [| op ops IH]; intros s H; [exact H|].
  apply IH. now apply registry_ok_exec_op.
Qed.

Lemma registry_ok_reachable : forall ops w, registry_ok (mm (exec ops (init w))).
Proof. intros ops w. apply registry_ok_exec. exact registry_ok_new. Qed.

(** The steps that touch the listener map. *)
Lemma exec_op_eventListeners : forall op s,
  match op with
  | OpAddEventListener _ _ _ _ | OpRemoveEventListener _ _ _ | OpCleanupAll => True
  | _ => eventListeners (mm (exec_op op s)) = eventListeners (mm s)
  end.
Proof.
  intros op s. destruct op; cbn [exec_op]; auto.
  - rewrite createObserver_run. cbv zeta. now destruct (platform _ _).
  - rewrite clearTimeout_run.
    destruct (JsSet.has _ _ _); [|reflexivity]. cbv zeta. now destruct (platform _ _).
  - rewrite clearInterval_run.
    destruct (JsSet.has _ _ _); [|reflexivity]. cbv zeta. now destruct (platform _ _).
  - now rewrite handleScrapingError_registry.
  - unfold safeContentExecute. now rewrite safeContentExecute_registry.
  - now rewrite on_error_registry.
  - now rewrite on_unhandledrejection_registry.
  - rewrite fire_registry.
    destruct (JsMap.get _ _ _) as [tm|]; [|reflexivity]. now destruct (tm_thunk tm).
Qed.

(** The steps that touch the set of repeating timers. *)
Lemma exec_op_intervals : forall op s id,
  In id (intervals (mm s)) ->
  cancels_interval id op = false ->
  In id (intervals (mm (exec_op op s))).
Proof.
  intros op s id H C. destruct op; cbn [exec_op]; cbn [cancels_interval] in C;
    try discriminate.
  - now rewrite addEventListener_run.
  - rewrite removeEventListener_run.
    destruct (JsMap.get _ _ _) as [ls|]; [|exact H].
    destruct (find _ ls); [|exact H]. cbv zeta. now destruct (platform _ _).
  - rewrite createObserver_run. cbv zeta. now destruct (platform _ _).
  - exact H.
  - rewrite setInterval_run. cbn [snd mm set_intervals intervals].
    apply (set_In_add Nat.eqb Nat.eqb_eq). now right.
  - rewrite clearTimeout_run.
    destruct (JsSet.has _ _ _); [|exact H]. cbv zeta. now destruct (platform _ _).
  - rewrite clearInterval_run.
    destruct (JsSet.has _ _ _); [|exact H]. cbv zeta.
    destruct (platform _ _); [exact H|]. cbn [snd mm set_intervals intervals].
    apply (set_In_delete Nat.eqb Nat.eqb_eq). split; [exact H|].
    intros ->. rewrite Nat.eqb_refl in C. discriminate.
  - exact H.
  - exact H.
  - exact H.
  - now rewrite handleScrapingError_registry.
  - unfold safeContentExecute. now rewrite safeContentExecute_registry.
  - now rewrite on_error_registry.
  - now rewrite on_unhandledrejection_registry.
  - rewrite fire_registry.
    destruct (JsMap.get _ _ _) as [tm|]; [|exact H]. now destruct (tm_thunk tm).
  - exact H.
Qed.




(** ** The properties of the registry *)



(** C3 (as amended).  A call of the wrapped operation is decided by which
    of the operation and the timer of [MAX_EXECUTION_TIME] = 30000 ms
    settles first.  An operation that throws at once or settles before the
    timer has its result or failure passed on unchanged; when the timer
    fires first, or the operation never settles, the call fails with the
    timeout error.  After a success that took more than 5000 ms the result
    is returned as usual and the slow-execution note goes to [log], which
    writes it only when the debug flag is on; with the flag off, as
    [CONTENT_DEBUG] is, nothing is written. *)
Theorem guarded_race_outcome :
  forall debug fn context args s,
    let ctx := match context with Some c => c | None => "content" end in
    let r := safeContentExecute_when debug fn context args s in
    let timer := GlobalSetTimeout RejectThunk MAX_EXECUTION_TIME in
    MAX_EXECUTION_TIME = 30000%Z
    /\ safeContentExecute fn context args s
       = safeContentExecute_when false fn context args s
    /\ (forall e, fn args = Throws e -> fst r = Throw e)
    /\ (forall after v,
          fn args = Settles after (Resolved v) ->
          (after < MAX_EXECUTION_TIME)%Z ->
          fst r = Ok v
          /\ trace (world (snd r))
             = trace (world s)
               ++ timer :: (if debug && (5000 <? after)%Z
                            then [slow_note ctx after] else []))
    /\ (forall after e,
          fn args = Settles after (Rejected e) ->
          (after < MAX_EXECUTION_TIME)%Z ->
          fst r = Throw e)
    /\ (forall after outcome,
          fn args = Settles after outcome ->
          (MAX_EXECUTION_TIME < after)%Z ->
          fst r = Throw timeout_error)
    /\ (fn args = NeverSettles -> fst r = Throw timeout_error).
Proof.
  intros debug fn context args s ctx r timer.
  split; [reflexivity|]. split; [reflexivity|].
  unfold r, safeContentExecute_when, try_catch, await_race, date_now.
  rewrite bind_run. cbn [bind get_world ret]. cbv iota beta.
  split; [|split; [|split; [|split]]].
  - intros e E. rewrite E. unfold log_when.
    destruct debug; reflexivity.
  - intros after v E L. rewrite E. rewrite bind_run.
    unfold global_setTimeout, record, bind, get_world, put_world, ret.
    cbn [mm world fst snd]. apply Z.ltb_lt in L. rewrite L.
    unfold advance, settle, bind, get_world, put_world, ret.
    cbn [mm world fst snd clock set_clock set_next_timer set_pending set_trace].
    replace (clock (world s) + after - clock (world s))%Z with after by lia.
    fold ctx. unfold log_when.
    destruct (5000 <? after)%Z eqn:L5; destruct debug; cbn [andb];
      unfold record, bind, get_world, put_world, ret;
      cbn [mm world fst snd trace set_trace]; split; try reflexivity.
    cbn [trace set_clock set_next_timer set_pending set_trace].
    rewrite <- app_assoc. reflexivity.
  - intros after e E L. rewrite E. rewrite bind_run.
    unfold global_setTimeout, record, bind, get_world, put_world, ret.
    cbn [mm world fst snd]. apply Z.ltb_lt in L. rewrite L.
    unfold advance, settle, throw, bind, get_world, put_world, ret, log_when.
    cbn [mm world fst snd].
    destruct debug; reflexivity.
  - intros after outcome E L. rewrite E. rewrite bind_run.
    unfold global_setTimeout, record, bind, get_world, put_world, ret.
    cbn [mm world fst snd].
    assert (L' : (after <? MAX_EXECUTION_TIME)%Z = false) by (apply Z.ltb_ge; lia).
    rewrite L'.
    unfold advance, fire, run_thunk, throw, bind, get_world, put_world, ret, log_when.
    cbn [mm world fst snd pending set_clock set_next_timer set_pending set_trace].
    rewrite (map_get_set_eq Nat.eqb Nat.eqb_eq). cbn [tm_kind tm_thunk fst snd].
    destruct debug; reflexivity.
  - intros E. rewrite E. rewrite bind_run.
    unfold global_setTimeout, record, bind, get_world, put_world, ret.
    cbn [mm world fst snd].
    unfold advance, fire, run_thunk, throw, bind, get_world, put_world, ret, log_when.
    cbn [mm world fst snd pending set_clock set_next_timer set_pending set_trace].
    rewrite (map_get_set_eq Nat.eqb Nat.eqb_eq). cbn [tm_kind tm_thunk fst snd].
    destruct debug; reflexivity.
Qed.


(** C5.  [setTimeout] tracks the handle it returns, and when the platform
    fires that timer the wrapper drops the handle from the tracked
    timeouts and calls the callback, whether the callback throws or not.
    [setInterval] tracks the handle it returns, and the handle stays
    tracked through every run that neither clears that interval nor
    releases everything, firings of the timer included; clearing it
    removes it. *)
Theorem timeout_self_removes_interval_persists :
  (forall callback delay s,
      let id := next_timer (world s) in
      let s1 := snd (setTimeout callback delay s) in
      fst (setTimeout callback delay s) = Ok id
      /\ In id (timeouts (mm s1))
      /\ JsMap.get Nat.eqb id (pending (world s1))
         = Some (mkTimer OneShot (TimeoutThunk callback) delay))
  /\ (forall id kind callback delay s,
         JsMap.get Nat.eqb id (pending (world s))
         = Some (mkTimer kind (TimeoutThunk callback) delay) ->
         ~ In id (timeouts (mm (snd (fire id s))))
         /\ trace (world (snd (fire id s))) = trace (world s) ++ [CallFn callback])
  /\ (forall callback delay s,
         let id := next_timer (world s) in
         let s1 := snd (setInterval callback delay s) in
         fst (setInterval callback delay s) = Ok id
         /\ In id (intervals (mm s1))
         /\ JsMap.get Nat.eqb id (pending (world s1))
            = Some (mkTimer Repeating (CallbackThunk callback) delay))
  /\ (forall id ops s,
         In id (intervals (mm s)) ->
         forallb (fun op => negb (cancels_interval id op)) ops = true ->
         In id (intervals (mm (exec ops s))))
  /\ (forall id s,
         platform (trace (world s)) (GlobalClearInterval id) = None ->
         ~ In id (intervals (mm (snd (clearInterval id s))))).
Proof.
  split; [|split; [|split; [|split]]].
  - intros callback delay s id s1. unfold s1. rewrite setTimeout_run.
    cbn [fst snd mm world set_timeouts timeouts pending set_next_timer set_pending].
    repeat split.
    + apply (set_In_add Nat.eqb Nat.eqb_eq). now left.
    + apply (map_get_set_eq Nat.eqb Nat.eqb_eq).
  - intros id kind callback delay s G. split.
    + rewrite fire_registry, G. cbn [tm_thunk set_timeouts timeouts].
      intro I. apply (set_In_delete Nat.eqb Nat.eqb_eq) in I. now destruct I.
    + unfold fire, run_thunk, call, record, bind, get_world, put_world, get_mm,
        put_mm, ret, throw.
      cbn [mm world fst snd]. rewrite G. cbn [tm_kind tm_thunk].
      destruct kind; cbn [mm world fst snd trace set_pending];
        now destruct (platform _ _).
  - intros callback delay s id s1. unfold s1. rewrite setInterval_run.
    cbn [fst snd mm world set_intervals intervals pending set_next_timer set_pending].
    repeat split.
    + apply (set_In_add Nat.eqb Nat.eqb_eq). now left.
    + apply (map_get_set_eq Nat.eqb Nat.eqb_eq).
  - intros id ops. induction ops as [| op ops IH]; intros s I F; [exact I|].
    cbn [forallb] in F. apply andb_true_iff in F. destruct F as [F1 F2].
    apply negb_true_iff in F1.
    cbn [exec fold_left]. change (fold_left _ ops ?x) with (exec ops x).
    apply IH; [|exact F2]. now apply exec_op_intervals.
  - intros id s P. rewrite clearInterval_run.
    destruct (JsSet.has Nat.eqb id (intervals (mm s))) eqn:E.
    + cbv zeta. rewrite P. cbn [snd mm set_intervals intervals].
      intro I. apply (set_In_delete Nat.eqb Nat.eqb_eq) in I. now destruct I.
    + cbn [snd]. intro I. apply (set_has_In Nat.eqb Nat.eqb_eq) in I. congruence.
Qed.


(** C7.  In every state the script can reach, [getMemoryUsage] returns the
    number of owners with a listener entry, of observers, of one-shot
    timers, of repeating timers and of cleanup callbacks that are tracked,
    each collection holding no item twice and each owner counted having at
    least one tracked listener, and it leaves the state as it is. *)
Theorem getMemoryUsage_counts :
  forall ops w,
    let s := exec ops (init w) in
    let m := mm s in
    getMemoryUsage s
    = (Ok {| mu_eventListeners := List.length (JsMap.keys (eventListeners m));
             mu_observers := List.length (observers m);
             mu_timeouts := List.length (timeouts m);
             mu_intervals := List.length (intervals m);
             mu_cleanupCallbacks := List.length (cleanupCallbacks m) |},
       s)
    /\ NoDup (JsMap.keys (eventListeners m))
    /\ NoDup (observers m)
    /\ NoDup (timeouts m)
    /\ NoDup (intervals m)
    /\ NoDup (cleanupCallbacks m)
    /\ (forall owner,
           In owner (JsMap.keys (eventListeners m))
           <-> exists wrapped, tracks s owner wrapped).
Proof.
  intros ops w s m.
  pose proof (registry_ok_reachable ops w) as R. fold s in R. fold m in R.
  split.
  - unfold getMemoryUsage, bind, get_mm, ret, JsMap.size, JsSet.size, JsMap.keys.
    now rewrite length_map.
  - destruct R as [Ht Hr Ho Hn Hob Hto Hi Hc]. repeat split; auto.
    + intro I. apply (map_In_keys_get Nat.eqb Nat.eqb_eq) in I.
      destruct (JsMap.get Nat.eqb owner (eventListeners m)) as [ls|] eqn:G;
        [|contradiction].
      pose proof (map_get_In Nat.eqb Nat.eqb_eq _ _ _ G) as J.
      rewrite Forall_forall in Hn. specialize (Hn _ J). cbn [snd] in Hn.
      destruct ls as [| l ls]; [contradiction|].
      exists (li_handler l), (l :: ls), l. repeat split; [exact G | now left].
    + intros (wrapped & ls & l & G & _). apply (map_In_keys_get Nat.eqb Nat.eqb_eq).
      fold m in G. congruence.
Qed.

(** C8.  [handleScrapingError] always returns normally.  It sends one
    report, which carries the tag 'contentScriptError', the message it was
    given, the current time in milliseconds and the address of the page;
    when sending throws, the failure is written to the console and goes no
    further.  The registry is not touched. *)
Theorem handleScrapingError_report :
  forall message s,
    let report :=
      {| action := "contentScriptError";
         error := message;
         timestamp := clock (world s);
         url := href (world s) |} in
    handleScrapingError message s
    = (Ok tt,
       mkState (mm s)
         (set_trace
            (trace (world s)
             ++ RuntimeSendMessage report
             :: match platform (trace (world s)) (RuntimeSendMessage report) with
                | None => []
                | Some e => [ConsoleError "Failed to send error to background:" e]
                end)
            (world s))).
Proof.
  intros message s report.
  unfold handleScrapingError, try_catch, date_now, location_href.
  rewrite !bind_run. cbn [bind get_world ret]. cbv iota beta.
  rewrite call_run. fold report.
  destruct (platform (trace (world s)) (RuntimeSendMessage report)) as [e|];
    [|reflexivity].
  unfold record, bind, get_world, put_world. cbn [mm world trace set_trace].
  now rewrite <- app_assoc.
Qed.

(** C9.  [clearTimeout] and [clearInterval] on a handle that is not in
    the tracked set return normally and change nothing: no platform call
    is made, and the registry and the world stay as they are. *)
Theorem clear_untracked_is_noop :
  forall id s,
    (~ In id (timeouts (mm s)) -> clearTimeout id s = (Ok tt, s))
    /\ (~ In id (intervals (mm s)) -> clearInterval id s = (Ok tt, s)).
Proof.
  intros id s. split; intro H.
  - rewrite clearTimeout_run.
    destruct (JsSet.has Nat.eqb id (timeouts (mm s))) eqn:E; [|reflexivity].
    apply (set_has_In Nat.eqb Nat.eqb_eq) in E. contradiction.
  - rewrite clearInterval_run.
    destruct (JsSet.has Nat.eqb id (intervals (mm s))) eqn:E; [|reflexivity].
    apply (set_has_In Nat.eqb Nat.eqb_eq) in E. contradiction.
Qed.

(** C10.  When the error field of an 'error' event is null or undefined,
    the global listener throws a TypeError while it reads the message, and
    the state is left as it was: no report is sent. *)
Theorem on_error_without_error_object :
  forall event s,
    ev_error event = VNull \/ ev_error event = VUndefined ->
    exists message, on_error event s = (Throw (TypeError message), s).
Proof.
  intros [v] s [H | H]; cbn [ev_error] in H; subst v; eexists; reflexivity.
Qed.

(** ** Further facts: counters and traces *)

Lemma keeps_counters_ret : forall {A} (a : A), keeps_counters (ret a).
Proof. intros A a s. split; reflexivity. Qed.

Lemma keeps_counters_bind : forall {A B} (c : M A) (k : A -> M B),
  keeps_counters c -> (forall a, keeps_counters (k a)) ->
  keeps_counters (bind c k).
Proof.
  intros A B c k Hc Hk s. unfold bind. specialize (Hc s).
  destruct (c s) as [[a | e] s']; cbn [snd] in Hc; [|exact Hc].
  destruct (Hk a s') as [H1 H2]. destruct Hc as [H3 H4]. split; congruence.
Qed.

Lemma keeps_counters_try_catch : forall {A} (c : M A) (h : JsVal -> M A),
  keeps_counters c -> (forall e, keeps_counters (h e)) ->
  keeps_counters (try_catch c h).
Proof.
  intros A c h Hc Hh s. unfold try_catch. specialize (Hc s).
  destruct (c s) as [[a | e] s']; cbn [snd] in Hc; [exact Hc|].
  destruct (Hh e s') as [H1 H2]. destruct Hc as [H3 H4]. split; congruence.
Qed.

Lemma keeps_counters_for_each : forall {A} (xs : list A) (body : A -> M unit),
  (forall x, keeps_counters (body x)) -> keeps_counters (for_each xs body).
Proof.
  intros A xs body H. induction xs as [| x xs IH]; cbn [for_each].
  - apply keeps_counters_ret.
  - apply keeps_counters_bind; [apply H | intros _; exact IH].
Qed.

Lemma keeps_counters_get_mm : keeps_counters get_mm.
Proof. intro s. split; reflexivity. Qed.

Lemma keeps_counters_put_mm : forall m, keeps_counters (put_mm m).
Proof. intros m s. split; reflexivity. Qed.

Lemma keeps_counters_record : forall a, keeps_counters (record a).
Proof. intros a s. split; reflexivity. Qed.

Lemma keeps_counters_call : forall a, keeps_counters (call a).
Proof. intros a s. rewrite call_run. split; reflexivity. Qed.

Lemma keeps_counters_clearTimeout : forall id, keeps_counters (global_clearTimeout id).
Proof.
  intros id s. unfold global_clearTimeout. rewrite bind_run, call_run.
  destruct (platform _ _); split; reflexivity.
Qed.

Lemma keeps_counters_clearInterval : forall id, keeps_counters (global_clearInterval id).
Proof.
  intros id s. unfold global_clearInterval. rewrite bind_run, call_run.
  destruct (platform _ _); split; reflexivity.
Qed.

Lemma keeps_counters_log : forall args, keeps_counters (log args).
Proof. intros args s. split; reflexivity. Qed.

Lemma keeps_counters_cleanupAll : keeps_counters cleanupAll.
Proof.
  unfold cleanupAll.
  repeat first
    [ apply keeps_counters_get_mm
    | apply keeps_counters_put_mm
    | apply keeps_counters_record
    | apply keeps_counters_call
    | apply keeps_counters_clearTimeout
    | apply keeps_counters_clearInterval
    | apply keeps_counters_log
    | apply keeps_counters_for_each; intro
    | apply keeps_counters_try_catch; [|intro]
    | apply keeps_counters_bind; [|intro]
    | progress cbv beta zeta ].
Qed.

Lemma attempted_no_log : forall tr acts out,
  attempted tr acts out ->
  Forall (fun a => is_console a = false) acts ->
  Forall (fun a => is_log a = false) out.
Proof.
  intros tr acts out H.
  induction H as [tr | tr a acts out Hp H IH | tr a e acts out Hp H IH];
    intro F; [constructor | |]; inversion F as [| ? ? Ha Hacts]; subst.
  - constructor; [now destruct a | now apply IH].
  - constructor; [now destruct a|]. constructor; [reflexivity | now apply IH].
Qed.

Lemma steps_on_refl : forall s, steps_on s s.
Proof.
  intro s. split; [lia|]. split; [lia|]. exists [].
  split; [now rewrite app_nil_r | constructor].
Qed.

Lemma steps_on_world : forall s s', world s' = world s -> steps_on s s'.
Proof.
  intros s s' E. unfold steps_on. rewrite E. split; [lia|]. split; [lia|].
  exists []. split; [now rewrite app_nil_r | constructor].
Qed.

Lemma steps_on_trans : forall s1 s2 s3,
  steps_on s1 s2 -> steps_on s2 s3 -> steps_on s1 s3.
Proof.
  intros s1 s2 s3 (A1 & A2 & o1 & A3 & A4) (B1 & B2 & o2 & B3 & B4).
  split; [lia|]. split; [lia|]. exists (o1 ++ o2). split.
  - now rewrite B3, A3, app_assoc.
  - apply Forall_app. now split.
Qed.

Ltac steps_tac :=
  unfold steps_on;
  cbn [mm world fst snd trace next_serial next_timer set_trace set_clock
       set_next_serial set_next_timer set_pending];
  split; [lia|]; split; [lia|];
  first [ exists []; split; [now rewrite app_nil_r | constructor]
        | eexists; split; [reflexivity | repeat constructor]
        | eexists; split; [rewrite <- !app_assoc; reflexivity | repeat constructor] ].

Lemma handleScrapingError_steps_on : forall message s,
  steps_on s (snd (handleScrapingError message s)).
Proof.
  intros message s.
  unfold handleScrapingError, try_catch, date_now, location_href.
  rewrite !bind_run. cbn [bind get_world ret]. cbv iota beta.
  rewrite call_run. destruct (platform _ _).
  - unfold record, bind, get_world, put_world. steps_tac.
  - steps_tac.
Qed.

Lemma on_error_steps_on : forall event s, steps_on s (snd (on_error event s)).
Proof.
  intros [v] s. unfold on_error. rewrite bind_run. cbn [log log_when CONTENT_DEBUG ret].
  cbv iota beta. rewrite bind_run. cbn [ev_error].
  destruct v; cbn [get_message throw ret snd];
    try apply steps_on_refl; apply handleScrapingError_steps_on.
Qed.

Lemma on_unhandledrejection_steps_on : forall event s,
  steps_on s (snd (on_unhandledrejection event s)).
Proof.
  intros event s. unfold on_unhandledrejection. rewrite bind_run.
  cbn [log log_when CONTENT_DEBUG ret]. cbv iota beta.
  apply handleScrapingError_steps_on.
Qed.

Lemma fire_steps_on : forall id s, steps_on s (snd (fire id s)).
Proof.
  intros id s. unfold fire, run_thunk, call, record, bind, get_world, put_world,
    get_mm, put_mm, ret, throw.
  cbn [mm world fst snd].
  destruct (JsMap.get Nat.eqb id (pending (world s))) as [[kind thunk delay]|];
    [|apply steps_on_refl].
  cbn [tm_kind tm_thunk].
  destruct kind, thunk; cbn [mm world fst snd trace];
    try destruct (platform _ _); steps_tac.
Qed.

Lemma safeContentExecute_steps_on : forall fn context args s,
  steps_on s (snd (safeContentExecute fn context args s)).
Proof.
  intros fn context args s.
  unfold safeContentExecute, safeContentExecute_when, try_catch, await_race, date_now.
  rewrite bind_run. cbn [bind get_world ret]. cbv iota beta.
  destruct (fn args) as [e | after [v | e] |]; rewrite ?bind_run;
    unfold global_setTimeout, record, bind, get_world, put_world, ret;
    cbn [mm world fst snd];
    try destruct (after <? MAX_EXECUTION_TIME)%Z;
    unfold advance, settle, fire, run_thunk, throw, bind, get_world, put_world,
      ret, log_when, CONTENT_DEBUG;
    cbn [mm world fst snd pending set_clock set_next_timer set_pending set_trace];
    rewrite ?(map_get_set_eq Nat.eqb Nat.eqb_eq); cbn [tm_kind tm_thunk fst snd];
    repeat match goal with
           | |- context [if ?b then _ else _] => destruct b
           end;
    unfold ret; steps_tac.
Qed.

Lemma cleanupAll_steps_on : forall s, steps_on s (snd (cleanupAll s)).
Proof.
  intro s. destruct (keeps_counters_cleanupAll s) as [K1 K2].
  destruct (cleanupAll_run s) as (w' & out & E & T & A).
  split; [rewrite K1; lia|]. split; [rewrite K2; lia|].
  rewrite E. cbn [snd world]. exists out. split; [exact T|].
  apply (attempted_no_log _ _ _ A). apply planned_teardown_calls.
Qed.

Lemma exec_op_steps_on : forall op s, steps_on s (exec_op op s).
Proof.
  intros op s. destruct op; cbn [exec_op].
  - rewrite addEventListener_run. steps_tac.
  - rewrite removeEventListener_run.
    destruct (JsMap.get _ _ _) as [ls|]; [|apply steps_on_refl].
    destruct (find _ ls); [|apply steps_on_refl]. cbv zeta.
    destruct (platform _ _); steps_tac.
  - rewrite createObserver_run. cbv zeta. destruct (platform _ _); steps_tac.
  - rewrite setTimeout_run. steps_tac.
  - rewrite setInterval_run. steps_tac.
  - rewrite clearTimeout_run.
    destruct (JsSet.has _ _ _); [|apply steps_on_refl]. cbv zeta.
    destruct (platform _ _); steps_tac.
  - rewrite clearInterval_run.
    destruct (JsSet.has _ _ _); [|apply steps_on_refl]. cbv zeta.
    destruct (platform _ _); steps_tac.
  - now apply steps_on_world.
  - now apply steps_on_world.
  - apply cleanupAll_steps_on.
  - apply steps_on_refl.
  - apply handleScrapingError_steps_on.
  - apply safeContentExecute_steps_on.
  - apply on_error_steps_on.
  - apply on_unhandledrejection_steps_on.
  - apply fire_steps_on.
  - unfold advance, bind, get_world, put_world. steps_tac.
Qed.

Lemma exec_steps_on : forall ops s, steps_on s (exec ops s).
Proof.
  induction ops as [| op ops IH]; intro s; [apply steps_on_refl|].
  cbn [exec fold_left]. change (fold_left _ ops ?x) with (exec ops x).
  apply steps_on_trans with (exec_op op s); [apply exec_op_steps_on | apply IH].
Qed.

(** ** Further properties *)


Lemma Fn_eqb_refl : forall f, Fn_eqb f f = true.
Proof. intro f. now apply Fn_eqb_eq. Qed.

Lemma fn_below_mono : forall n n' f,
  n <= n' -> fn_below n f = true -> fn_below n' f = true.
Proof.
  intros n n' f L. induction f as [a | f IH k]; cbn [fn_below]; [auto|].
  rewrite !andb_true_iff, !Nat.ltb_lt. intros [H1 H2]. split; [lia | auto].
Qed.

(** A function made now is none of the functions that exist already. *)
Lemma fn_below_not_new : forall k f h,
  fn_below k f = true -> Fn_eqb f (Bound h k) = false.
Proof.
  intros k f h H. destruct f as [a | f j]; cbn [Fn_eqb]; [reflexivity|].
  cbn [fn_below] in H. apply andb_true_iff in H. destruct H as [H _].
  apply Nat.ltb_lt in H. apply andb_false_iff. right. apply Nat.eqb_neq. lia.
Qed.

Lemma map_set_same : forall (k : nat) (v : list ListenerInfo) m,
  JsMap.get Nat.eqb k m = Some v -> JsMap.set Nat.eqb k v m = m.
Proof.
  intros k v m. induction m as [| [k' v'] m IH]; cbn [JsMap.get JsMap.set];
    [discriminate|].
  destruct (Nat.eqb k k') eqn:E.
  - intro H. inversion H. reflexivity.
  - intro H. now rewrite IH.
Qed.

Lemma map_delete_absent : forall (k : nat) (m : JsMap.t nat (list ListenerInfo)),
  JsMap.get Nat.eqb k m = None -> JsMap.delete Nat.eqb k m = m.
Proof.
  intros k m. unfold JsMap.delete.
  induction m as [| [k' v'] m IH]; cbn [JsMap.get filter fst]; [reflexivity|].
  destruct (Nat.eqb k k') eqn:E; [discriminate|].
  intro H. cbn [negb]. now rewrite IH.
Qed.

Lemma find_last : forall {A} (p : A -> bool) l x,
  (forall y, In y l -> p y = false) -> p x = true ->
  find p (l ++ [x]) = Some x /\ delete_found p (l ++ [x]) = l.
Proof.
  intros A p l x H Hx. induction l as [| y l IH]; cbn [app find delete_found].
  - now rewrite Hx.
  - rewrite (H y (or_introl eq_refl)).
    destruct IH as [I1 I2]; [intros z Hz; apply H; now right|].
    now rewrite I1, I2.
Qed.

Lemma handlers_below_frame : forall s s',
  eventListeners (mm s') = eventListeners (mm s) ->
  next_serial (world s) <= next_serial (world s') ->
  handlers_below s -> handlers_below s'.
Proof.
  intros s s' E L H. unfold handlers_below in *. rewrite E.
  rewrite Forall_forall in *. intros entry He. specialize (H entry He).
  rewrite Forall_forall in *. intros l Hl. destruct (H l Hl) as [H1 H2].
  split; eapply fn_below_mono; eauto.
Qed.

Lemma handlers_below_exec_op : forall op s,
  match op with
  | OpAddEventListener _ _ handler _ =>
      fn_below (next_serial (world s)) handler = true
  | _ => True
  end ->
  handlers_below s -> handlers_below (exec_op op s).
Proof.
  intros op s W H.
  pose proof (exec_op_eventListeners op s) as E.
  pose proof (exec_op_steps_on op s) as (L & _).
  destruct op;
    try (apply (handlers_below_frame s); [exact E | exact L | exact H]);
    clear E L; cbn [exec_op].
  - rewrite addEventListener_run. unfold handlers_below in *.
    cbn [snd mm world set_eventListeners eventListeners next_serial
         set_trace set_next_serial].
    assert (M : forall f, fn_below (next_serial (world s)) f = true ->
                          fn_below (S (next_serial (world s))) f = true).
    { intros f. apply fn_below_mono. lia. }
    assert (H' : Forall
                   (fun entry : Element * list ListenerInfo =>
                      Forall
                        (fun l =>
                           fn_below (S (next_serial (world s))) (li_handler l) = true
                           /\ fn_below (S (next_serial (world s)))
                                       (li_originalHandler l) = true)
                        (snd entry))
                   (eventListeners (mm s))).
    { rewrite Forall_forall in *. intros entry He. specialize (H entry He).
      rewrite Forall_forall in *. intros l Hl. destruct (H l Hl). split; auto. }
    apply (map_Forall_set Nat.eqb Nat.eqb_eq); [exact H'|].
    cbn [fst snd]. apply Forall_app. split.
    + destruct (JsMap.get Nat.eqb element (eventListeners (mm s))) as [ls|] eqn:G;
        [|constructor].
      apply (map_get_In Nat.eqb Nat.eqb_eq) in G.
      rewrite Forall_forall in H'. exact (H' _ G).
    + constructor; [|constructor]. cbn [li_handler li_originalHandler fn_below].
      split; [|now apply M]. apply andb_true_iff. split; [|now apply M].
      apply Nat.ltb_lt. lia.
  - rewrite removeEventListener_run.
    destruct (JsMap.get Nat.eqb element (eventListeners (mm s))) as [ls|] eqn:G;
      [|exact H].
    destruct (find (listener_matches event handler) ls) as [l|]; [|exact H].
    cbv zeta. destruct (platform _ _); [exact H|].
    unfold handlers_below in *.
    cbn [snd mm world set_eventListeners eventListeners next_serial set_trace].
    destruct (Nat.eqb _ 0).
    + now apply map_Forall_delete.
    + apply (map_Forall_set Nat.eqb Nat.eqb_eq); [exact H|]. cbn [fst snd].
      apply (map_get_In Nat.eqb Nat.eqb_eq) in G.
      rewrite Forall_forall in H. specialize (H _ G). cbn [snd] in H.
      rewrite Forall_forall in *. intros x Hx. apply H.
      now apply delete_found_incl in Hx.
  - destruct (cleanupAll_run s) as (w' & out & E & _). rewrite E.
    unfold handlers_below. cbn [snd mm eventListeners]. constructor.
Qed.

Lemma handlers_below_exec : forall ops s,
  passes_existing_functions ops s ->
  handlers_below s -> handlers_below (exec ops s).
Proof.
  induction ops as [| op ops IH]; intros s W H; [exact H|].
  cbn [passes_existing_functions] in W. destruct W as [W1 W2].
  cbn [exec fold_left]. change (fold_left _ ops ?x) with (exec ops x).
  apply IH; [exact W2|]. now apply handlers_below_exec_op.
Qed.

(** X2.  In a run whose callers pass functions that exist, registering a
    listener and unregistering it through the wrapped handler that was
    returned leaves the registry exactly as it was before, when the attach
    and the detach return; the two calls made are the attach and the
    detach of the wrapped handler, with the same event and options. *)
Theorem register_unregister_roundtrip :
  forall ops w element event handler options,
    let s := exec ops (init w) in
    let wrapped := Bound handler (next_serial (world s)) in
    let opts := match options with Some o => o | None => [] end in
    let attach := ElAddEventListener element event wrapped opts in
    let detach := ElRemoveEventListener element event wrapped opts in
    let r1 := addEventListener element event handler options s in
    let r2 := removeEventListener element event wrapped (snd r1) in
    passes_existing_functions ops (init w) ->
    platform (trace (world s)) attach = None ->
    platform (trace (world s) ++ [attach]) detach = None ->
    fst r1 = Ok wrapped
    /\ fst r2 = Ok tt
    /\ mm (snd r2) = mm s
    /\ trace (world (snd r2)) = trace (world s) ++ [attach; detach].
Proof.
  intros ops w element event handler options s wrapped opts attach detach r1 r2
         W Pa Pd.
  assert (B : handlers_below s).
  { apply handlers_below_exec; [exact W | constructor]. }
  pose proof (registry_ok_reachable ops w) as R. fold s in R.
  set (info := mkListenerInfo event wrapped handler opts element).
  assert (Hinfo : listener_matches event wrapped info = true).
  { unfold listener_matches, info. cbn [li_event li_handler].
    now rewrite String.eqb_refl, Fn_eqb_refl. }
  assert (Hold : forall ls, JsMap.get Nat.eqb element (eventListeners (mm s)) = Some ls ->
                   forall y, In y ls -> listener_matches event wrapped y = false).
  { intros ls G y Hy. apply (map_get_In Nat.eqb Nat.eqb_eq) in G.
    unfold handlers_below in B. rewrite Forall_forall in B. specialize (B _ G).
    cbn [snd] in B. rewrite Forall_forall in B. destruct (B y Hy) as [B1 B2].
    unfold listener_matches, wrapped.
    rewrite (fn_below_not_new _ _ handler B1), (fn_below_not_new _ _ handler B2).
    apply andb_false_r. }
  unfold r2, r1. rewrite addEventListener_run.
  fold opts wrapped attach info. rewrite Pa. cbn [fst snd].
  rewrite removeEventListener_run.
  cbn [mm world trace set_trace set_next_serial set_eventListeners eventListeners].
  rewrite (map_get_set_eq Nat.eqb Nat.eqb_eq).
  destruct (JsMap.get Nat.eqb element (eventListeners (mm s))) as [ls|] eqn:G.
  - destruct (find_last (listener_matches event wrapped) ls info (Hold ls eq_refl) Hinfo)
      as [F D].
    rewrite F. cbv zeta. cbn [li_handler li_options info]. fold detach.
    rewrite Pd. rewrite D.
    assert (N : ls <> []).
    { apply (map_get_In Nat.eqb Nat.eqb_eq) in G.
      pose proof (ok_nonempty _ R) as N. rewrite Forall_forall in N.
      exact (N _ G). }
    destruct ls as [| l0 ls]; [contradiction|]. cbn [List.length Nat.eqb fst snd].
    rewrite (map_set_set Nat.eqb Nat.eqb_eq), (map_set_same _ _ _ G).
    repeat split.
    + destruct (mm s). reflexivity.
    + cbn [mm world trace set_trace]. now rewrite <- app_assoc.
  - cbn [app find]. rewrite Hinfo. cbv zeta. cbn [li_handler li_options info].
    fold detach. rewrite Pd. cbn [delete_found]. rewrite Hinfo.
    cbn [List.length Nat.eqb fst snd].
    rewrite (map_delete_set Nat.eqb Nat.eqb_eq), (map_delete_absent _ _ G).
    repeat split.
    + destruct (mm s). reflexivity.
    + cbn [mm world trace set_trace]. now rewrite <- app_assoc.
Qed.






Lemma set_delete_absent : forall (f : Fn) (cbs : JsSet.t Fn),
  ~ In f cbs -> JsSet.delete Fn_eqb f cbs = cbs.
Proof.
  intros f cbs H. unfold JsSet.delete. induction cbs as [| g cbs IH]; [reflexivity|].
  cbn [filter]. destruct (Fn_eqb f g) eqn:E.
  - apply Fn_eqb_eq in E. subst g. exfalso. apply H. now left.
  - cbn [negb]. rewrite IH; [reflexivity|]. intro Hin. apply H. now right.
Qed.

Lemma set_delete_add : forall (f : Fn) (cbs : JsSet.t Fn),
  ~ In f cbs -> JsSet.delete Fn_eqb f (JsSet.add Fn_eqb f cbs) = cbs.
Proof.
  intros f cbs H. unfold JsSet.add.
  destruct (JsSet.has Fn_eqb f cbs) eqn:E.
  - apply (set_has_In Fn_eqb Fn_eqb_eq) in E. contradiction.
  - unfold JsSet.delete. rewrite filter_app. cbn [filter].
    rewrite Fn_eqb_refl. cbn [negb]. rewrite app_nil_r.
    now apply set_delete_absent.
Qed.

(** X4.  Cleanup callbacks form a set.  Adding a callback that is
    registered changes nothing, so adding twice is adding once; removing
    a callback that is not registered changes nothing; adding a new
    callback and removing it again restores the state; and after
    [removeCleanupCallback] the callback is not registered, while the
    others stay registered. *)
Theorem cleanup_callback_set_laws :
  forall callback s,
    (In callback (cleanupCallbacks (mm s)) ->
       addCleanupCallback callback s = (Ok tt, s))
    /\ addCleanupCallback callback (snd (addCleanupCallback callback s))
       = (Ok tt, snd (addCleanupCallback callback s))
    /\ (~ In callback (cleanupCallbacks (mm s)) ->
          removeCleanupCallback callback s = (Ok tt, s)
          /\ removeCleanupCallback callback (snd (addCleanupCallback callback s))
             = (Ok tt, s))
    /\ ~ In callback (cleanupCallbacks (mm (snd (removeCleanupCallback callback s))))
    /\ (forall other, other <> callback ->
          In other (cleanupCallbacks (mm s)) ->
          In other (cleanupCallbacks (mm (snd (removeCleanupCallback callback s))))).
Proof.
  intros callback [m w].
  unfold addCleanupCallback, removeCleanupCallback, bind, get_mm, put_mm.
  cbn [mm world fst snd set_cleanupCallbacks cleanupCallbacks].
  assert (A : forall cbs, In callback cbs -> JsSet.add Fn_eqb callback cbs = cbs).
  { intros cbs H. unfold JsSet.add.
    apply (set_has_In Fn_eqb Fn_eqb_eq) in H. now rewrite H. }
  split; [|split; [|split; [|split]]].
  - intro H. rewrite (A _ H). now destruct m.
  - rewrite (A (JsSet.add Fn_eqb callback (cleanupCallbacks m))); [reflexivity|].
    apply (set_In_add Fn_eqb Fn_eqb_eq). now left.
  - intro H. rewrite (set_delete_absent _ _ H), (set_delete_add _ _ H).
    now destruct m.
  - intro H. apply (set_In_delete Fn_eqb Fn_eqb_eq) in H. now destruct H.
  - intros other Hne H. apply (set_In_delete Fn_eqb Fn_eqb_eq). now split.
Qed.

(** The steps that touch the set of observers. *)
Lemma exec_op_observers : forall op s observer,
  In observer (observers (mm s)) ->
  is_cleanupAll op = false ->
  In observer (observers (mm (exec_op op s))).
Proof.
  intros op s observer H C. destruct op; cbn [exec_op]; cbn [is_cleanupAll] in C;
    try discriminate; try exact H.
  - now rewrite addEventListener_run.
  - rewrite removeEventListener_run.
    destruct (JsMap.get _ _ _) as [ls|]; [|exact H].
    destruct (find _ ls); [|exact H]. cbv zeta. now destruct (platform _ _).
  - rewrite createObserver_run. cbv zeta.
    destruct (platform _ _); [exact H|]. cbn [snd mm set_observers observers].
    apply (set_In_add Nat.eqb Nat.eqb_eq). now right.
  - rewrite clearTimeout_run.
    destruct (JsSet.has _ _ _); [|exact H]. cbv zeta. now destruct (platform _ _).
  - rewrite clearInterval_run.
    destruct (JsSet.has _ _ _); [|exact H]. cbv zeta. now destruct (platform _ _).
  - now rewrite handleScrapingError_registry.
  - unfold safeContentExecute. now rewrite safeContentExecute_registry.
  - now rewrite on_error_registry.
  - now rewrite on_unhandledrejection_registry.
  - rewrite fire_registry.
    destruct (JsMap.get _ _ _) as [tm|]; [|exact H]. now destruct (tm_thunk tm).
Qed.

(** X5.  [createObserver] tracks the observer it returns; when the
    constructor throws, the exception reaches the caller and nothing is
    tracked.  A tracked observer stays tracked through every run without
    [cleanupAll]: no other method of the registry releases an observer. *)
Theorem observer_tracked_until_cleanupAll :
  (forall observerClass callback options s,
      let r := createObserver observerClass callback options s in
      let opts := match options with Some o => o | None => [] end in
      match platform (trace (world s)) (NewObserver observerClass callback opts) with
      | None =>
          fst r = Ok (next_serial (world s))
          /\ In (next_serial (world s)) (observers (mm (snd r)))
      | Some e => fst r = Throw e /\ mm (snd r) = mm s
      end)
  /\ (forall observer ops s,
         In observer (observers (mm s)) ->
         forallb (fun op => negb (is_cleanupAll op)) ops = true ->
         In observer (observers (mm (exec ops s)))).
Proof.
  split.
  - intros observerClass callback options s r opts. unfold r.
    rewrite createObserver_run. fold opts. cbv zeta.
    destruct (platform _ _); cbn [fst snd mm set_observers observers].
    + split; reflexivity.
    + split; [reflexivity|]. apply (set_In_add Nat.eqb Nat.eqb_eq). now left.
  - intros observer ops. induction ops as [| op ops IH]; intros s I F; [exact I|].
    cbn [forallb] in F. apply andb_true_iff in F. destruct F as [F1 F2].
    apply negb_true_iff in F1.
    cbn [exec fold_left]. change (fold_left _ ops ?x) with (exec ops x).
    apply IH; [|exact F2]. now apply exec_op_observers.
Qed.

(** X9.  Whatever the script is made to do, from any state, the trace
    only grows and the calls added to it include no [console.log]: with
    the debug flag off, [log] writes nothing anywhere in the script. *)
Theorem never_logs_to_console :
  forall ops s,
    exists out,
      trace (world (exec ops s)) = trace (world s) ++ out
      /\ Forall (fun a => is_log a = false) out.
Proof.
  intros ops s. destruct (exec_steps_on ops s) as (_ & _ & out & T & F).
  now exists out.
Qed.

(** ** Further facts: the timers of the platform *)

Lemma pending_kept_same : forall s s',
  pending (world s') = pending (world s) -> pending_kept s s'.
Proof. intros s s' E id _. now rewrite E. Qed.

Lemma handleScrapingError_pending : forall message s,
  pending (world (snd (handleScrapingError message s))) = pending (world s).
Proof.
  intros message s.
  unfold handleScrapingError, try_catch, date_now, location_href.
  rewrite !bind_run. cbn [bind get_world ret]. cbv iota beta.
  rewrite call_run. now destruct (platform _ _).
Qed.

Lemma on_error_pending : forall event s,
  pending (world (snd (on_error event s))) = pending (world s).
Proof.
  intros [v] s. unfold on_error. rewrite bind_run. cbn [log log_when CONTENT_DEBUG ret].
  cbv iota beta. rewrite bind_run. cbn [ev_error].
  destruct v; cbn [get_message throw ret snd]; try reflexivity;
    apply handleScrapingError_pending.
Qed.

Lemma on_unhandledrejection_pending : forall event s,
  pending (world (snd (on_unhandledrejection event s))) = pending (world s).
Proof.
  intros event s. unfold on_unhandledrejection. rewrite bind_run.
  cbn [log log_when CONTENT_DEBUG ret]. cbv iota beta.
  apply handleScrapingError_pending.
Qed.

Lemma safeContentExecute_pending_kept : forall fn context args s,
  pending_kept s (snd (safeContentExecute fn context args s)).
Proof.
  intros fn context args s id L.
  unfold safeContentExecute, safeContentExecute_when, try_catch, await_race, date_now.
  rewrite bind_run. cbn [bind get_world ret]. cbv iota beta.
  assert (N : next_timer (world s) <> id) by lia.
  destruct (fn args) as [e | after [v | e] |]; rewrite ?bind_run;
    unfold global_setTimeout, record, bind, get_world, put_world, ret;
    cbn [mm world fst snd];
    try destruct (after <? MAX_EXECUTION_TIME)%Z;
    unfold advance, settle, fire, run_thunk, throw, bind, get_world, put_world,
      ret, log_when, CONTENT_DEBUG;
    cbn [mm world fst snd pending next_timer set_clock set_next_timer set_pending
         set_trace];
    rewrite ?(map_get_set_eq Nat.eqb Nat.eqb_eq); cbn [tm_kind tm_thunk fst snd];
    repeat match goal with
           | |- context [if ?b then _ else _] => destruct b
           end;
    unfold ret;
    cbn [mm world fst snd pending next_timer set_clock set_next_timer set_pending
         set_trace];
    rewrite ?(map_get_delete_neq Nat.eqb Nat.eqb_eq) by exact N;
    rewrite ?(map_get_set_neq Nat.eqb Nat.eqb_eq) by exact N;
    reflexivity.
Qed.

Lemma fire_world : forall id s,
  next_timer (world (snd (fire id s))) = next_timer (world s)
  /\ pending (world (snd (fire id s)))
     = match JsMap.get Nat.eqb id (pending (world s)) with
       | Some tm =>
           match tm_kind tm with
           | OneShot => JsMap.delete Nat.eqb id (pending (world s))
           | Repeating => pending (world s)
           end
       | None => pending (world s)
       end.
Proof.
  intros id s. unfold fire, run_thunk, call, record, bind, get_world, put_world,
    get_mm, put_mm, ret, throw.
  cbn [mm world fst snd].
  destruct (JsMap.get Nat.eqb id (pending (world s))) as [[kind thunk delay]|];
    [|split; reflexivity].
  cbn [tm_kind tm_thunk].
  destruct kind, thunk; cbn [mm world fst snd trace];
    try destruct (platform _ _); split; reflexivity.
Qed.

Lemma timers_live_frame : forall s s',
  timeouts (mm s') = timeouts (mm s) ->
  intervals (mm s') = intervals (mm s) ->
  next_timer (world s) <= next_timer (world s') ->
  pending_kept s s' ->
  timers_live s -> timers_live s'.
Proof.
  intros s s' ET EI L K [HT HI]. unfold timers_live. rewrite ET, EI. split.
  - intros id I. destruct (HT id I) as (B & cb & d & G).
    split; [lia|]. exists cb, d. now rewrite (K id B).
  - intros id I. destruct (HI id I) as (B & cb & d & G).
    split; [lia|]. exists cb, d. now rewrite (K id B).
Qed.

Lemma timers_live_disjoint : forall s id,
  timers_live s -> In id (timeouts (mm s)) -> ~ In id (intervals (mm s)).
Proof.
  intros s id [HT HI] I1 I2.
  destruct (HT id I1) as (_ & cb1 & d1 & G1).
  destruct (HI id I2) as (_ & cb2 & d2 & G2).
  rewrite G1 in G2. discriminate.
Qed.

Lemma timers_live_exec_op : forall op s,
  timers_live s -> timers_live (exec_op op s).
Proof.
  intros op s H. destruct op; cbn [exec_op].
  - apply (timers_live_frame s); auto; rewrite addEventListener_run;
      try reflexivity. now apply pending_kept_same.
  - rewrite removeEventListener_run.
    destruct (JsMap.get _ _ _) as [ls|]; [|exact H].
    destruct (find _ ls); [|exact H]. cbv zeta.
    destruct (platform _ _); apply (timers_live_frame s); auto;
      now apply pending_kept_same.
  - rewrite createObserver_run. cbv zeta.
    destruct (platform _ _); apply (timers_live_frame s); auto;
      now apply pending_kept_same.
  - rewrite setTimeout_run. destruct H as [HT HI]. split;
      cbn [snd mm world set_timeouts timeouts intervals next_timer pending
           set_next_timer set_pending set_trace]; intros id I.
    + apply (set_In_add Nat.eqb Nat.eqb_eq) in I. destruct I as [-> | I].
      * split; [lia|]. eexists. eexists.
        apply (map_get_set_eq Nat.eqb Nat.eqb_eq).
      * destruct (HT id I) as (B & cb & d & G). split; [lia|]. exists cb, d.
        rewrite (map_get_set_neq Nat.eqb Nat.eqb_eq); [exact G | lia].
    + destruct (HI id I) as (B & cb & d & G). split; [lia|]. exists cb, d.
      rewrite (map_get_set_neq Nat.eqb Nat.eqb_eq); [exact G | lia].
  - rewrite setInterval_run. destruct H as [HT HI]. split;
      cbn [snd mm world set_intervals timeouts intervals next_timer pending
           set_next_timer set_pending set_trace]; intros id I.
    + destruct (HT id I) as (B & cb & d & G). split; [lia|]. exists cb, d.
      rewrite (map_get_set_neq Nat.eqb Nat.eqb_eq); [exact G | lia].
    + apply (set_In_add Nat.eqb Nat.eqb_eq) in I. destruct I as [-> | I].
      * split; [lia|]. eexists. eexists.
        apply (map_get_set_eq Nat.eqb Nat.eqb_eq).
      * destruct (HI id I) as (B & cb & d & G). split; [lia|]. exists cb, d.
        rewrite (map_get_set_neq Nat.eqb Nat.eqb_eq); [exact G | lia].
  - rewrite clearTimeout_run.
    destruct (JsSet.has Nat.eqb timeoutId (timeouts (mm s))) eqn:X; [|exact H].
    apply (set_has_In Nat.eqb Nat.eqb_eq) in X. cbv zeta.
    destruct (platform _ _).
    + apply (timers_live_frame s); auto. now apply pending_kept_same.
    + pose proof (timers_live_disjoint s timeoutId H X) as D.
      destruct H as [HT HI]. split;
        cbn [snd mm world set_timeouts timeouts intervals next_timer pending
             set_pending set_trace]; intros id I.
      * apply (set_In_delete Nat.eqb Nat.eqb_eq) in I. destruct I as [I Hne].
        destruct (HT id I) as (B & cb & d & G). split; [exact B|]. exists cb, d.
        rewrite (map_get_delete_neq Nat.eqb Nat.eqb_eq); [exact G | congruence].
      * destruct (HI id I) as (B & cb & d & G). split; [exact B|]. exists cb, d.
        rewrite (map_get_delete_neq Nat.eqb Nat.eqb_eq); [exact G|].
        intros ->. contradiction.
  - rewrite clearInterval_run.
    destruct (JsSet.has Nat.eqb intervalId (intervals (mm s))) eqn:X; [|exact H].
    apply (set_has_In Nat.eqb Nat.eqb_eq) in X. cbv zeta.
    destruct (platform _ _).
    + apply (timers_live_frame s); auto. now apply pending_kept_same.
    + assert (D : ~ In intervalId (timeouts (mm s))).
      { intro Y. exact (timers_live_disjoint s intervalId H Y X). }
      destruct H as [HT HI]. split;
        cbn [snd mm world set_intervals timeouts intervals next_timer pending
             set_pending set_trace]; intros id I.
      * destruct (HT id I) as (B & cb & d & G). split; [exact B|]. exists cb, d.
        rewrite (map_get_delete_neq Nat.eqb Nat.eqb_eq); [exact G|].
        intros ->. contradiction.
      * apply (set_In_delete Nat.eqb Nat.eqb_eq) in I. destruct I as [I Hne].
        destruct (HI id I) as (B & cb & d & G). split; [exact B|]. exists cb, d.
        rewrite (map_get_delete_neq Nat.eqb Nat.eqb_eq); [exact G | congruence].
  - apply (timers_live_frame s); auto. now apply pending_kept_same.
  - apply (timers_live_frame s); auto. now apply pending_kept_same.
  - destruct (cleanupAll_run s) as (w' & out & E & _). rewrite E.
    split; cbn [snd mm timeouts intervals]; intros id [].
  - exact H.
  - apply (timers_live_frame s); auto;
      rewrite ?handleScrapingError_registry; try reflexivity.
    + pose proof (handleScrapingError_steps_on message s) as (_ & L & _). exact L.
    + apply pending_kept_same. apply handleScrapingError_pending.
  - apply (timers_live_frame s); auto; unfold safeContentExecute;
      rewrite ?safeContentExecute_registry; try reflexivity.
    + pose proof (safeContentExecute_steps_on fn context args s) as (_ & L & _).
      exact L.
    + apply safeContentExecute_pending_kept.
  - apply (timers_live_frame s); auto;
      rewrite ?on_error_registry; try reflexivity.
    + pose proof (on_error_steps_on event s) as (_ & L & _). exact L.
    + apply pending_kept_same. apply on_error_pending.
  - apply (timers_live_frame s); auto;
      rewrite ?on_unhandledrejection_registry; try reflexivity.
    + pose proof (on_unhandledrejection_steps_on event s) as (_ & L & _). exact L.
    + apply pending_kept_same. apply on_unhandledrejection_pending.
  - destruct (fire_world id s) as [FN FP].
    pose proof (fire_registry id s) as FR.
    pose proof H as [HT HI].
    destruct (JsMap.get Nat.eqb id (pending (world s))) as [tm|] eqn:G.
    2:{ apply (timers_live_frame s); auto; try (now rewrite FR); try lia.
        now apply pending_kept_same. }
    split; rewrite FN, FP, FR; intros x I.
    + assert (X : In x (timeouts (mm s)) /\ (x = id -> False)).
      { destruct (tm_thunk tm) eqn:T.
        - cbn [set_timeouts timeouts] in I.
          apply (set_In_delete Nat.eqb Nat.eqb_eq) in I. tauto.
        - split; [exact I|]. intros ->. destruct (HT id I) as (_ & cb & d & G').
          rewrite G in G'. inversion G'. subst tm. discriminate.
        - split; [exact I|]. intros ->. destruct (HT id I) as (_ & cb & d & G').
          rewrite G in G'. inversion G'. subst tm. discriminate. }
      destruct X as [I' Hne]. destruct (HT x I') as (B & cb & d & G').
      split; [exact B|]. exists cb, d.
      destruct (tm_kind tm); [|exact G'].
      rewrite (map_get_delete_neq Nat.eqb Nat.eqb_eq); [exact G'|].
      intro Eq. apply Hne. now symmetry.
    + assert (I' : In x (intervals (mm s))) by (now destruct (tm_thunk tm)).
      destruct (HI x I') as (B & cb & d & G').
      split; [exact B|]. exists cb, d.
      destruct (tm_kind tm) eqn:K; [|exact G'].
      rewrite (map_get_delete_neq Nat.eqb Nat.eqb_eq); [exact G'|].
      intros ->. rewrite G in G'. inversion G'. subst tm. discriminate.
  - apply (timers_live_frame s); auto. now apply pending_kept_same.
Qed.

Lemma timers_live_exec : forall ops s, timers_live s -> timers_live (exec ops s).
Proof.
  induction ops as [| op ops IH]; intros s H; [exact H|].
  apply IH. now apply timers_live_exec_op.
Qed.

Lemma timers_live_reachable : forall ops w, timers_live (exec ops (init w)).
Proof.
  intros ops w. apply timers_live_exec. split; intros id [].
Qed.

(** X6.  In every state the script can reach, a tracked timeout handle is
    a one-shot timer that the platform still holds and that runs the
    wrapper of [MemoryManager.setTimeout], and a tracked interval handle
    is a repeating timer that the platform still holds and that runs the
    caller's callback: the registry tracks no timer that has fired or was
    cleared, and no handle is tracked both as a timeout and as an
    interval. *)
Theorem tracked_timers_are_live :
  forall ops w,
    let s := exec ops (init w) in
    timers_live s
    /\ (forall id, In id (timeouts (mm s)) -> ~ In id (intervals (mm s))).
Proof.
  intros ops w s. pose proof (timers_live_reachable ops w) as H. fold s in H.
  split; [exact H|]. intros id. now apply timers_live_disjoint.
Qed.

Lemma set_delete_add_nat : forall (x : nat) (ids : JsSet.t nat),
  ~ In x ids -> JsSet.delete Nat.eqb x (JsSet.add Nat.eqb x ids) = ids.
Proof.
  intros x ids H. unfold JsSet.add.
  destruct (JsSet.has Nat.eqb x ids) eqn:E.
  - apply (set_has_In Nat.eqb Nat.eqb_eq) in E. contradiction.
  - unfold JsSet.delete. rewrite filter_app. cbn [filter].
    rewrite Nat.eqb_refl. cbn [negb]. rewrite app_nil_r.
    induction ids as [| y ids IH]; [reflexivity|]. cbn [filter].
    destruct (Nat.eqb x y) eqn:X.
    + apply Nat.eqb_eq in X. subst y. exfalso. apply H. now left.
    + cbn [negb]. rewrite IH; [reflexivity | | ].
      * intro I. apply H. now right.
      * cbn [JsSet.has existsb] in E. rewrite X in E. exact E.
Qed.

(** X7.  From every state the script can reach, scheduling a one-shot
    timer and cancelling the handle that was returned leaves the registry
    exactly as it was, when the platform's clear returns; the platform no
    longer holds the timer, so firing the handle afterwards does nothing
    and the callback is never called.  The same holds for a repeating
    timer. *)
Theorem schedule_cancel_roundtrip :
  forall ops w callback delay,
    let s := exec ops (init w) in
    let id := next_timer (world s) in
    (let r1 := setTimeout callback delay s in
     let r2 := clearTimeout id (snd r1) in
     platform (trace (world (snd r1))) (GlobalClearTimeout id) = None ->
     fst r1 = Ok id
     /\ fst r2 = Ok tt
     /\ mm (snd r2) = mm s
     /\ JsMap.get Nat.eqb id (pending (world (snd r2))) = None
     /\ fire id (snd r2) = (Ok tt, snd r2))
    /\ (let r1 := setInterval callback delay s in
        let r2 := clearInterval id (snd r1) in
        platform (trace (world (snd r1))) (GlobalClearInterval id) = None ->
        fst r1 = Ok id
        /\ fst r2 = Ok tt
        /\ mm (snd r2) = mm s
        /\ JsMap.get Nat.eqb id (pending (world (snd r2))) = None
        /\ fire id (snd r2) = (Ok tt, snd r2)).
Proof.
  intros ops w callback delay s id.
  pose proof (timers_live_reachable ops w) as [HT HI]. fold s in HT, HI.
  assert (NT : ~ In id (timeouts (mm s))).
  { intro I. destruct (HT id I) as [B _]. unfold id in B. lia. }
  assert (NI : ~ In id (intervals (mm s))).
  { intro I. destruct (HI id I) as [B _]. unfold id in B. lia. }
  assert (F : forall s', JsMap.get Nat.eqb id (pending (world s')) = None ->
                         fire id s' = (Ok tt, s')).
  { intros s' G. unfold fire, bind, get_world. cbn [fst snd]. now rewrite G. }
  split; intros r1 r2 P.
  - unfold r2, r1 in *. rewrite setTimeout_run in *. fold id in P |- *.
    cbn [fst snd] in *. rewrite clearTimeout_run.
    cbn [mm world set_timeouts timeouts trace set_next_timer set_pending set_trace
         pending] in *.
    assert (X : JsSet.has Nat.eqb id (JsSet.add Nat.eqb id (timeouts (mm s))) = true).
    { apply (set_has_In Nat.eqb Nat.eqb_eq), (set_In_add Nat.eqb Nat.eqb_eq).
      now left. }
    rewrite X. cbv zeta. rewrite P. cbn [fst snd mm world pending set_pending].
    rewrite (set_delete_add_nat _ _ NT).
    split; [reflexivity|]. split; [reflexivity|]. split; [now destruct (mm s)|].
    assert (G : JsMap.get Nat.eqb id
                  (JsMap.delete Nat.eqb id
                     (JsMap.set Nat.eqb id
                        (mkTimer OneShot (TimeoutThunk callback) delay)
                        (pending (world s)))) = None)
      by apply (map_get_delete_eq Nat.eqb).
    split; [exact G|]. apply F. exact G.
  - unfold r2, r1 in *. rewrite setInterval_run in *. fold id in P |- *.
    cbn [fst snd] in *. rewrite clearInterval_run.
    cbn [mm world set_intervals intervals trace set_next_timer set_pending set_trace
         pending] in *.
    assert (X : JsSet.has Nat.eqb id (JsSet.add Nat.eqb id (intervals (mm s))) = true).
    { apply (set_has_In Nat.eqb Nat.eqb_eq), (set_In_add Nat.eqb Nat.eqb_eq).
      now left. }
    rewrite X. cbv zeta. rewrite P. cbn [fst snd mm world pending set_pending].
    rewrite (set_delete_add_nat _ _ NI).
    split; [reflexivity|]. split; [reflexivity|]. split; [now destruct (mm s)|].
    assert (G : JsMap.get Nat.eqb id
                  (JsMap.delete Nat.eqb id
                     (JsMap.set Nat.eqb id
                        (mkTimer Repeating (CallbackThunk callback) delay)
                        (pending (world s)))) = None)
      by apply (map_get_delete_eq Nat.eqb).
    split; [exact G|]. apply F. exact G.
Qed.

(** ** Further properties: relay, guard, attach and detach *)

Lemma handleScrapingError_sends : forall message s,
  exists tail,
    fst (handleScrapingError message s) = Ok tt
    /\ trace (world (snd (handleScrapingError message s)))
       = trace (world s)
         ++ RuntimeSendMessage
              (mkReport "contentScriptError" message (clock (world s)) (href (world s)))
         :: tail
    /\ Forall (fun a => is_console a = true) tail.
Proof.
  intros message s.
  unfold handleScrapingError, try_catch, date_now, location_href.
  rewrite !bind_run. cbn [bind get_world ret]. cbv iota beta.
  rewrite call_run. destruct (platform _ _) as [e|].
  - exists [ConsoleError "Failed to send error to background:" e].
    unfold record, bind, get_world, put_world.
    cbn [fst snd mm world trace set_trace].
    split; [reflexivity|]. split; [now rewrite <- app_assoc|].
    constructor; [reflexivity | constructor].
  - exists []. cbn [fst snd mm world trace set_trace].
    split; [reflexivity|]. split; [reflexivity | constructor].
Qed.

(** X8.  The global error listener relays an uncaught Error with its
    message, and a thrown boolean, number or string as 'Global error:
    undefined', since such a value has no message.  The rejection
    listener relays a reason that is undefined, null, a boolean, a string
    or an Error with the text of the reason.  In these cases the listener
    returns normally and sends exactly one report, followed by console
    output at most. *)
Theorem global_listeners_relay :
  forall s,
    let sent text (r : Res unit * State) :=
      exists tail,
        fst r = Ok tt
        /\ trace (world (snd r))
           = trace (world s)
             ++ RuntimeSendMessage
                  (mkReport "contentScriptError" text (clock (world s)) (href (world s)))
             :: tail
        /\ Forall (fun a => is_console a = true) tail in
    (forall name message,
        sent ("Global error: " ++ message)%string
             (on_error (mkErrorEvent (VError name message)) s))
    /\ (forall v, is_primitive v = true ->
          sent "Global error: undefined" (on_error (mkErrorEvent v) s))
    /\ (forall reason, has_plain_text reason = true ->
          sent ("Unhandled promise rejection: " ++ to_string reason)%string
               (on_unhandledrejection (mkRejectionEvent reason) s)).
Proof.
  intros s sent. split; [|split].
  - intros name message. unfold sent, on_error. rewrite bind_run.
    cbn [log log_when CONTENT_DEBUG ret]. cbv iota beta. rewrite bind_run.
    cbn [ev_error get_message ret to_string]. cbv iota beta.
    apply handleScrapingError_sends.
  - intros v P. unfold sent, on_error. rewrite bind_run.
    cbn [log log_when CONTENT_DEBUG ret]. cbv iota beta. rewrite bind_run.
    destruct v; try discriminate P;
      cbn [ev_error get_message ret to_string]; cbv iota beta;
      apply handleScrapingError_sends.
  - intros reason _. unfold sent, on_unhandledrejection. rewrite bind_run.
    cbn [log log_when CONTENT_DEBUG ret]. cbv iota beta. cbn [ev_reason].
    apply handleScrapingError_sends.
Qed.

Lemma steps_on_trace_In : forall s s' a,
  steps_on s s' -> In a (trace (world s)) -> In a (trace (world s')).
Proof.
  intros s s' a (_ & _ & out & T & _) H. rewrite T. apply in_or_app. now left.
Qed.

Lemma attached_steps_on : forall s s' element l,
  steps_on s s' -> attached s element l -> attached s' element l.
Proof.
  intros s s' element l S (A1 & A2 & A3).
  repeat split; auto. now apply (steps_on_trace_In s).
Qed.

Lemma all_attached_exec_op : forall op s,
  Forall (fun entry => Forall (attached s (fst entry)) (snd entry))
         (eventListeners (mm s)) ->
  Forall (fun entry => Forall (attached (exec_op op s) (fst entry)) (snd entry))
         (eventListeners (mm (exec_op op s))).
Proof.
  intros op s H.
  pose proof (exec_op_steps_on op s) as S.
  assert (H' : Forall (fun entry : Element * list ListenerInfo =>
                         Forall (attached (exec_op op s) (fst entry)) (snd entry))
                      (eventListeners (mm s))).
  { rewrite Forall_forall in *. intros entry He. specialize (H entry He).
    rewrite Forall_forall in *. intros l Hl.
    apply (attached_steps_on s); auto. }
  pose proof (exec_op_eventListeners op s) as E.
  destruct op; try (rewrite E; exact H'); clear E; cbn [exec_op] in *.
  - rewrite addEventListener_run in *.
    cbn [snd mm set_eventListeners eventListeners] in *.
    apply (map_Forall_set Nat.eqb Nat.eqb_eq); [exact H'|].
    cbn [fst snd]. apply Forall_app. split.
    + destruct (JsMap.get Nat.eqb element (eventListeners (mm s))) as [ls|] eqn:G;
        [|constructor].
      apply (map_get_In Nat.eqb Nat.eqb_eq) in G.
      rewrite Forall_forall in H'. exact (H' _ G).
    + constructor; [|constructor]. unfold attached.
      cbn [li_element li_handler li_originalHandler li_event li_options
           world trace set_trace].
      split; [reflexivity|]. split; [eexists; reflexivity|].
      apply in_or_app. right. now left.
  - rewrite removeEventListener_run in *.
    destruct (JsMap.get Nat.eqb element (eventListeners (mm s))) as [ls|] eqn:G;
      [|exact H'].
    destruct (find (listener_matches event handler) ls) as [l|]; [|exact H'].
    cbv zeta in *. destruct (platform _ _); [exact H'|].
    cbn [snd mm set_eventListeners eventListeners] in *.
    destruct (Nat.eqb _ 0).
    + now apply map_Forall_delete.
    + apply (map_Forall_set Nat.eqb Nat.eqb_eq); [exact H'|]. cbn [fst snd].
      apply (map_get_In Nat.eqb Nat.eqb_eq) in G.
      rewrite Forall_forall in H'. specialize (H' _ G). cbn [fst snd] in H'.
      rewrite Forall_forall in *. intros x Hx. apply H'.
      now apply delete_found_incl in Hx.
  - destruct (cleanupAll_run s) as (w' & out & E & _). rewrite E.
    cbn [snd mm eventListeners]. constructor.
Qed.

Lemma all_attached_exec : forall ops s,
  Forall (fun entry => Forall (attached s (fst entry)) (snd entry))
         (eventListeners (mm s)) ->
  Forall (fun entry => Forall (attached (exec ops s) (fst entry)) (snd entry))
         (eventListeners (mm (exec ops s))).
Proof.
  induction ops as [| op ops IH]; intros s H; [exact H|].
  cbn [exec fold_left]. change (fold_left _ ops ?x) with (exec ops x).
  apply IH. now apply all_attached_exec_op.
Qed.

(** X10.  In every state the script can reach, a record tracked under an
    owner names that owner as its element, its handler is a function
    bound from its original handler, and the trace holds the call that
    attached this handler to this owner with the event and options of the
    record: [removeEventListener] and [cleanupAll], which detach with the
    fields of the record, detach with what was attached. *)
Theorem tracked_listeners_were_attached :
  forall ops w element l,
    let s := exec ops (init w) in
    In l (listeners_of element s) -> attached s element l.
Proof.
  intros ops w element l s I.
  assert (H : Forall (fun entry => Forall (attached s (fst entry)) (snd entry))
                     (eventListeners (mm s))).
  { apply all_attached_exec. constructor. }
  unfold listeners_of in I.
  destruct (JsMap.get Nat.eqb element (eventListeners (mm s))) as [ls|] eqn:G;
    [|destruct I].
  apply (map_get_In Nat.eqb Nat.eqb_eq) in G.
  rewrite Forall_forall in H. specialize (H _ G). cbn [fst snd] in H.
  rewrite Forall_forall in H. now apply H.
Qed.

(** X11.  [safeContentExecute] never touches the registry.  When the
    operation throws at once, no timer is started and nothing else
    happens.  When the operation settles before the bound, the timer that
    was started is not cleared: the only call made is the [setTimeout],
    the platform still holds the timer afterwards, and when it fires
    later it changes neither the registry nor the trace.  When the bound
    is reached first, the timer has fired and is gone. *)
Theorem guard_timer_is_never_cleared :
  forall fn context args s,
    let r := safeContentExecute fn context args s in
    let id := next_timer (world s) in
    let timer := mkTimer OneShot RejectThunk MAX_EXECUTION_TIME in
    mm (snd r) = mm s
    /\ (forall e, fn args = Throws e -> r = (Throw e, s))
    /\ (forall after outcome,
          fn args = Settles after outcome ->
          (after < MAX_EXECUTION_TIME)%Z ->
          trace (world (snd r))
          = trace (world s) ++ [GlobalSetTimeout RejectThunk MAX_EXECUTION_TIME]
          /\ JsMap.get Nat.eqb id (pending (world (snd r))) = Some timer
          /\ mm (snd (fire id (snd r))) = mm s
          /\ trace (world (snd (fire id (snd r)))) = trace (world (snd r))
          /\ JsMap.get Nat.eqb id (pending (world (snd (fire id (snd r))))) = None)
    /\ (forall after outcome,
          fn args = Settles after outcome ->
          (MAX_EXECUTION_TIME < after)%Z ->
          JsMap.get Nat.eqb id (pending (world (snd r))) = None)
    /\ (fn args = NeverSettles ->
        JsMap.get Nat.eqb id (pending (world (snd r))) = None).
Proof.
  intros fn context args s r id timer.
  split; [apply safeContentExecute_registry|].
  unfold r, safeContentExecute, safeContentExecute_when, try_catch, await_race,
    date_now.
  rewrite bind_run. cbn [bind get_world ret]. cbv iota beta.
  split; [|split; [|split]].
  - intros e E. rewrite E. now destruct s.
  - intros after outcome E L. rewrite E. rewrite bind_run.
    unfold global_setTimeout, record, bind, get_world, put_world, ret.
    cbn [mm world fst snd]. apply Z.ltb_lt in L. rewrite L.
    assert (X : forall (c : Res JsVal * State) w1,
               snd c = mkState (mm s) w1 ->
               trace w1 = trace (world s)
                          ++ [GlobalSetTimeout RejectThunk MAX_EXECUTION_TIME] ->
               JsMap.get Nat.eqb id (pending w1) = Some timer ->
               trace (world (snd c))
               = trace (world s) ++ [GlobalSetTimeout RejectThunk MAX_EXECUTION_TIME]
               /\ JsMap.get Nat.eqb id (pending (world (snd c))) = Some timer
               /\ mm (snd (fire id (snd c))) = mm s
               /\ trace (world (snd (fire id (snd c)))) = trace (world (snd c))
               /\ JsMap.get Nat.eqb id (pending (world (snd (fire id (snd c))))) = None).
    { intros c w1 C T G. rewrite C. cbn [world mm].
      split; [exact T|]. split; [exact G|].
      unfold fire, bind, get_world, put_world, run_thunk, ret.
      cbn [mm world fst snd]. rewrite G. cbn [tm_kind tm_thunk mm world fst snd
        trace pending set_pending].
      split; [reflexivity|]. split; [reflexivity|].
      apply (map_get_delete_eq Nat.eqb). }
    unfold advance, settle, throw, bind, get_world, put_world, ret, log_when,
      CONTENT_DEBUG.
    cbn [mm world fst snd clock set_clock set_next_timer set_pending set_trace].
    destruct outcome as [v | e];
      repeat match goal with
             | |- context [if ?b then _ else _] => destruct b
             end;
      eapply X; cbn [snd]; try reflexivity;
        cbn [pending trace set_clock set_next_timer set_pending set_trace];
        try reflexivity; apply (map_get_set_eq Nat.eqb Nat.eqb_eq).
  - intros after outcome E L. rewrite E. rewrite bind_run.
    unfold global_setTimeout, record, bind, get_world, put_world, ret.
    cbn [mm world fst snd].
    assert (L' : (after <? MAX_EXECUTION_TIME)%Z = false) by (apply Z.ltb_ge; lia).
    rewrite L'.
    unfold advance, fire, run_thunk, throw, bind, get_world, put_world, ret,
      log_when, CONTENT_DEBUG.
    cbn [mm world fst snd pending set_clock set_next_timer set_pending set_trace].
    rewrite (map_get_set_eq Nat.eqb Nat.eqb_eq).
    cbn [tm_kind tm_thunk fst snd mm world pending set_pending].
    apply (map_get_delete_eq Nat.eqb).
  - intros E. rewrite E. rewrite bind_run.
    unfold global_setTimeout, record, bind, get_world, put_world, ret.
    cbn [mm world fst snd].
    unfold advance, fire, run_thunk, throw, bind, get_world, put_world, ret,
      log_when, CONTENT_DEBUG.
    cbn [mm world fst snd pending set_clock set_next_timer set_pending set_trace].
    rewrite (map_get_set_eq Nat.eqb Nat.eqb_eq).
    cbn [tm_kind tm_thunk fst snd mm world pending set_pending].
    apply (map_get_delete_eq Nat.eqb).
Qed.


(** ** Further facts: what [cleanupAll] clears *)

Lemma cleared_app : forall ids1 ids2 p,
  cleared (ids1 ++ ids2) p = cleared ids2 (cleared ids1 p).
Proof. intros ids1 ids2 p. unfold cleared. now rewrite fold_left_app. Qed.

Lemma cleared_get_in : forall ids id p,
  In id ids -> JsMap.get Nat.eqb id (cleared ids p) = None.
Proof.
  induction ids as [| x ids IH]; intros id p H; [destruct H|].
  cbn [cleared fold_left]. change (fold_left _ ids ?q) with (cleared ids q).
  destruct (Nat.eq_dec id x) as [-> | Hne].
  - clear IH H. generalize (map_get_delete_eq Nat.eqb x p).
    generalize (JsMap.delete Nat.eqb x p). clear p.
    induction ids as [| y ids IH]; intros p G; [exact G|].
    cbn [cleared fold_left]. apply IH.
    destruct (Nat.eq_dec y x) as [-> | Hn].
    + apply (map_get_delete_eq Nat.eqb).
    + rewrite (map_get_delete_neq Nat.eqb Nat.eqb_eq); [exact G | exact Hn].
  - apply IH. destruct H as [H | H]; [congruence | exact H].
Qed.

Lemma cleared_get_out : forall ids id p,
  ~ In id ids -> JsMap.get Nat.eqb id (cleared ids p) = JsMap.get Nat.eqb id p.
Proof.
  induction ids as [| x ids IH]; intros id p H; [reflexivity|].
  cbn [cleared fold_left]. change (fold_left _ ids ?q) with (cleared ids q).
  rewrite IH; [|intro I; apply H; now right].
  apply (map_get_delete_neq Nat.eqb Nat.eqb_eq). intros ->. apply H. now left.
Qed.

Lemma clears_guarded_call : forall a text,
  clears (try_catch (call a) (warn text)) [].
Proof.
  intros a text s. unfold try_catch. rewrite call_run.
  destruct (platform _ _); eexists; (split; [reflexivity|]); split; reflexivity.
Qed.

Lemma clears_guarded_clearTimeout : forall id text,
  clears_return ->
  clears (try_catch (global_clearTimeout id) (warn text)) [id].
Proof.
  intros id text C s. unfold try_catch, global_clearTimeout.
  rewrite bind_run, call_run. rewrite (proj1 (C _ id)).
  eexists. split; [reflexivity|]. split; reflexivity.
Qed.

Lemma clears_guarded_clearInterval : forall id text,
  clears_return ->
  clears (try_catch (global_clearInterval id) (warn text)) [id].
Proof.
  intros id text C s. unfold try_catch, global_clearInterval.
  rewrite bind_run, call_run. rewrite (proj2 (C _ id)).
  eexists. split; [reflexivity|]. split; reflexivity.
Qed.

Lemma clears_for_each : forall {A} (body : A -> M unit) (ids : A -> list TimerId) xs,
  (forall x, clears (body x) (ids x)) ->
  clears (for_each xs body) (flat_map ids xs).
Proof.
  intros A body ids xs H. induction xs as [| x xs IH]; intro s; cbn [for_each flat_map].
  - exists s. repeat split.
  - destruct (H x s) as (s1 & E1 & M1 & P1).
    destruct (IH s1) as (s2 & E2 & M2 & P2).
    exists s2. rewrite (bind_ok _ E1). split; [exact E2|].
    split; [congruence|]. now rewrite P2, P1, cleared_app.
Qed.

Lemma flat_map_nil : forall {A B} (xs : list A),
  flat_map (fun _ : A => @nil B) xs = [].
Proof. intros A B xs. induction xs; [reflexivity | exact IHxs]. Qed.

Lemma flat_map_one : forall {A} (xs : list A),
  flat_map (fun x : A => [x]) xs = xs.
Proof. intros A xs. induction xs; cbn [flat_map app]; congruence. Qed.

Lemma cleanupAll_clears : forall s,
  clears_return ->
  pending (world (snd (cleanupAll s)))
  = cleared (timeouts (mm s) ++ intervals (mm s)) (pending (world s)).
Proof.
  intros s C. unfold cleanupAll. step_mm. cbv zeta.
  assert (L1 : clears
                 (for_each (eventListeners (mm s)) (fun entry =>
                    for_each (snd entry) (fun listener =>
                      try_catch
                        (call (ElRemoveEventListener (fst entry) (li_event listener)
                                 (li_handler listener) (li_options listener)))
                        (fun error =>
                           record (ConsoleWarn "Error removing event listener:" error)))))
                 []).
  { rewrite <- (flat_map_nil (eventListeners (mm s))).
    apply clears_for_each. intro entry.
    rewrite <- (flat_map_nil (snd entry)). apply clears_for_each. intro l.
    apply (clears_guarded_call _ "Error removing event listener:"). }
  destruct (L1 s) as (s1 & E1 & M1 & P1).
  rewrite (bind_ok _ E1); cbv beta. do 3 step_mm.
  assert (L2 : forall obs, clears
                 (for_each obs (fun observer =>
                    try_catch (call (ObserverDisconnect observer))
                      (fun error =>
                         record (ConsoleWarn "Error disconnecting observer:" error))))
                 []).
  { intro obs. rewrite <- (flat_map_nil obs). apply clears_for_each. intro o.
    apply (clears_guarded_call _ "Error disconnecting observer:"). }
  destruct (L2 (observers (mm s1))
               (mkState (set_eventListeners [] (mm s1)) (world s1)))
    as (s2 & E2 & M2 & P2).
  rewrite (bind_ok _ E2); cbv beta. do 3 step_mm.
  assert (L3 : forall ids, clears
                 (for_each ids (fun timeoutId =>
                    try_catch (global_clearTimeout timeoutId)
                      (fun error =>
                         record (ConsoleWarn "Error clearing timeout:" error))))
                 ids).
  { intro ids. rewrite <- (flat_map_one ids) at 2. apply clears_for_each. intro id.
    now apply (clears_guarded_clearTimeout id "Error clearing timeout:"). }
  destruct (L3 (timeouts (mm s2))
               (mkState (set_observers [] (mm s2)) (world s2)))
    as (s3 & E3 & M3 & P3).
  rewrite (bind_ok _ E3); cbv beta. do 3 step_mm.
  assert (L4 : forall ids, clears
                 (for_each ids (fun intervalId =>
                    try_catch (global_clearInterval intervalId)
                      (fun error =>
                         record (ConsoleWarn "Error clearing interval:" error))))
                 ids).
  { intro ids. rewrite <- (flat_map_one ids) at 2. apply clears_for_each. intro id.
    now apply (clears_guarded_clearInterval id "Error clearing interval:"). }
  destruct (L4 (intervals (mm s3))
               (mkState (set_timeouts [] (mm s3)) (world s3)))
    as (s4 & E4 & M4 & P4).
  rewrite (bind_ok _ E4); cbv beta. do 3 step_mm.
  assert (L5 : forall cbs, clears
                 (for_each cbs (fun callback =>
                    try_catch (call (CallFn callback))
                      (fun error =>
                         record (ConsoleWarn "Error in cleanup callback:" error))))
                 []).
  { intro cbs. rewrite <- (flat_map_nil cbs). apply clears_for_each. intro f.
    apply (clears_guarded_call _ "Error in cleanup callback:"). }
  destruct (L5 (cleanupCallbacks (mm s4))
               (mkState (set_intervals [] (mm s4)) (world s4)))
    as (s5 & E5 & M5 & P5).
  rewrite (bind_ok _ E5); cbv beta. do 2 step_mm.
  cbn [mm world snd log log_when CONTENT_DEBUG ret] in *.
  rewrite P5, P4, P3, P2, P1. cbn [cleared fold_left].
  rewrite M3, M2, M1.
  cbn [timeouts intervals set_eventListeners set_observers set_timeouts].
  now rewrite cleared_app.
Qed.

(** X13.  When the platform's [clearTimeout] and [clearInterval] return,
    as they do in a browser, [cleanupAll] really cancels what it tracked:
    afterwards the platform holds none of the timers that were tracked,
    so firing such a handle does nothing and its callback is never
    called, and every timer that was not tracked is held as before. *)
Theorem cleanupAll_cancels_tracked_timers :
  clears_return ->
  forall s id,
    let s' := snd (cleanupAll s) in
    (In id (timeouts (mm s)) \/ In id (intervals (mm s)) ->
       JsMap.get Nat.eqb id (pending (world s')) = None
       /\ fire id s' = (Ok tt, s'))
    /\ (~ In id (timeouts (mm s)) -> ~ In id (intervals (mm s)) ->
          JsMap.get Nat.eqb id (pending (world s'))
          = JsMap.get Nat.eqb id (pending (world s))).
Proof.
  intros C s id s'. unfold s'. rewrite (cleanupAll_clears s C). split.
  - intro I.
    assert (G : JsMap.get Nat.eqb id
                  (cleared (timeouts (mm s) ++ intervals (mm s)) (pending (world s)))
                = None).
    { apply cleared_get_in. apply in_or_app. exact I. }
    split; [exact G|].
    unfold fire, bind, get_world. cbn [fst snd].
    rewrite (cleanupAll_clears s C), G. reflexivity.
  - intros N1 N2. apply cleared_get_out. intro I. apply in_app_or in I. tauto.
Qed.

(** X14.  From every state the script can reach, registering a handler
    for an event on an owner that tracks no record matching that event
    and handler, and unregistering it by passing the same handler again,
    leaves the registry exactly as it was, when the attach and the detach
    return: the record is found through its original handler, and what
    is detached is the wrapped handler that was attached. *)
Theorem register_unregister_by_original_handler :
  forall ops w element event handler options,
    let s := exec ops (init w) in
    let wrapped := Bound handler (next_serial (world s)) in
    let opts := match options with Some o => o | None => [] end in
    let attach := ElAddEventListener element event wrapped opts in
    let detach := ElRemoveEventListener element event wrapped opts in
    let r1 := addEventListener element event handler options s in
    let r2 := removeEventListener element event handler (snd r1) in
    (forall l, In l (listeners_of element s) ->
               listener_matches event handler l = false) ->
    platform (trace (world s)) attach = None ->
    platform (trace (world s) ++ [attach]) detach = None ->
    fst r1 = Ok wrapped
    /\ fst r2 = Ok tt
    /\ mm (snd r2) = mm s
    /\ trace (world (snd r2)) = trace (world s) ++ [attach; detach].
Proof.
  intros ops w element event handler options s wrapped opts attach detach r1 r2
         Hold Pa Pd.
  pose proof (registry_ok_reachable ops w) as R. fold s in R.
  set (info := mkListenerInfo event wrapped handler opts element).
  assert (Hinfo : listener_matches event handler info = true).
  { unfold listener_matches, info. cbn [li_event li_handler li_originalHandler].
    rewrite String.eqb_refl, Fn_eqb_refl. now rewrite orb_true_r. }
  unfold listeners_of in Hold.
  unfold r2, r1. rewrite addEventListener_run.
  fold opts wrapped attach info. rewrite Pa. cbn [fst snd].
  rewrite removeEventListener_run.
  cbn [mm world trace set_trace set_next_serial set_eventListeners eventListeners].
  rewrite (map_get_set_eq Nat.eqb Nat.eqb_eq).
  destruct (JsMap.get Nat.eqb element (eventListeners (mm s))) as [ls|] eqn:G.
  - destruct (find_last (listener_matches event handler) ls info Hold Hinfo)
      as [F D].
    rewrite F. cbv zeta. cbn [li_handler li_options info]. fold detach.
    rewrite Pd. rewrite D.
    assert (N : ls <> []).
    { apply (map_get_In Nat.eqb Nat.eqb_eq) in G.
      pose proof (ok_nonempty _ R) as N. rewrite Forall_forall in N.
      exact (N _ G). }
    destruct ls as [| l0 ls]; [contradiction|]. cbn [List.length Nat.eqb fst snd].
    rewrite (map_set_set Nat.eqb Nat.eqb_eq), (map_set_same _ _ _ G).
    repeat split.
    + destruct (mm s). reflexivity.
    + cbn [mm world trace set_trace]. now rewrite <- app_assoc.
  - cbn [app find]. rewrite Hinfo. cbv zeta. cbn [li_handler li_options info].
    fold detach. rewrite Pd. cbn [delete_found]. rewrite Hinfo.
    cbn [List.length Nat.eqb fst snd].
    rewrite (map_delete_set Nat.eqb Nat.eqb_eq), (map_delete_absent _ _ G).
    repeat split.
    + destruct (mm s). reflexivity.
    + cbn [mm world trace set_trace]. now rewrite <- app_assoc.
Qed.

End Script.

(** ** The properties at the sample inputs *)

(** The sample run leaves three listeners on two owners, one observer,
    two one-shot timers, one repeating timer and one cleanup callback;
    after [cleanupAll] nothing is tracked. *)
Example sample_usage :
  let s := exec quiet_platform sample_run (init sample_world) in
  fst (getMemoryUsage s) = Ok (mkMemoryUsage 2 1 2 1 1)
  /\ fst (getMemoryUsage (snd (cleanupAll quiet_platform s)))
     = Ok (mkMemoryUsage 0 0 0 0 0).
Proof. split; reflexivity. Qed.

(** With a detach that throws and a cleanup callback that throws,
    [cleanupAll] still makes every teardown call and empties the
    registry. *)
Example sample_teardown_with_failures :
  let s := exec faulty_platform sample_run (init sample_world) in
  let r := cleanupAll faulty_platform s in
  fst r = Ok tt
  /\ mm (snd r) = new_MemoryManager
  /\ skipn (List.length (trace (world s))) (trace (world (snd r)))
     = [ElRemoveEventListener 1 "click" (Bound (Plain 10) 0) [];
        ConsoleWarn "Error removing event listener:" (VError "Error" "detach failed");
        ElRemoveEventListener 1 "keydown" (Bound (Plain 11) 1) [];
        ConsoleWarn "Error removing event listener:" (VError "Error" "detach failed");
        ElRemoveEventListener 2 "click" (Bound (Plain 10) 2) [];
        ObserverDisconnect 3;
        GlobalClearTimeout 1;
        GlobalClearTimeout 2;
        GlobalClearInterval 3;
        CallFn (Plain 16);
        ConsoleWarn "Error in cleanup callback:" (VStr "boom")].
Proof. repeat split; reflexivity. Qed.



(** The claim C3 as it is stated fails at this input: the operation
    succeeds after 6000 ms, more than the slow threshold, the result is
    returned, and no note is written: the only call made is the one that
    starts the timer. *)
Lemma slow_success_records_no_note :
  let s := init sample_world in
  let r := safeContentExecute quiet_platform slow_operation (Some "test") [] s in
  fst r = Ok (VNum 42)
  /\ (clock (world (snd r)) - clock (world s) = 6000)%Z
  /\ (5000 < 6000)%Z
  /\ trace (world (snd r)) = [GlobalSetTimeout RejectThunk 30000]
  /\ ~ (exists note, In (ConsoleLog note) (trace (world (snd r)))).
Proof.
  cbv zeta. repeat split.
  intros [note [H | []]]. discriminate.
Qed.

(** The slow operation under either value of the debug flag: the result is
    returned, and the note is written exactly when the flag is on. *)
Lemma guarded_race_outcome_witness :
  slow_operation [] = Settles 6000 (Resolved (VNum 42))
  /\ (6000 < MAX_EXECUTION_TIME)%Z
  /\ (forall debug,
        let r := safeContentExecute_when quiet_platform debug slow_operation
                   (Some "test") [] (init sample_world) in
        fst r = Ok (VNum 42)
        /\ trace (world (snd r))
           = GlobalSetTimeout RejectThunk MAX_EXECUTION_TIME
             :: (if debug then [slow_note "test" 6000] else [])).
Proof.
  split; [reflexivity|]. split; [reflexivity|]. intros debug r.
  destruct (guarded_race_outcome quiet_platform debug slow_operation
              (Some "test") [] (init sample_world)) as (_ & _ & _ & H & _).
  destruct (H 6000%Z (VNum 42) eq_refl eq_refl) as [H1 H2].
  split; [exact H1|]. unfold r. rewrite H2. now destruct debug.
Defined.


(** Timer 1 of the sample run is gone once it fires; interval 3 stays
    through firings and unrelated steps until it is cleared. *)
Lemma timeout_self_removes_interval_persists_witness :
  let s := exec quiet_platform sample_run (init sample_world) in
  JsMap.get Nat.eqb 1 (pending (world s))
  = Some (mkTimer OneShot (TimeoutThunk (Plain 13)) 100)
  /\ In 1 (timeouts (mm s))
  /\ ~ In 1 (timeouts (mm (snd (fire quiet_platform 1 s))))
  /\ In 3 (intervals (mm s))
  /\ In 3 (intervals
             (mm (exec quiet_platform
                    [OpFire 3; OpFire 3; OpClearTimeout 2; OpFire 1; OpFire 3] s)))
  /\ ~ In 3 (intervals (mm (snd (clearInterval quiet_platform 3 s)))).
Proof.
  cbv zeta.
  destruct (timeout_self_removes_interval_persists quiet_platform)
    as (_ & H2 & _ & H4 & H5).
  assert (G : JsMap.get Nat.eqb 1
                (pending (world (exec quiet_platform sample_run (init sample_world))))
              = Some (mkTimer OneShot (TimeoutThunk (Plain 13)) 100))
    by reflexivity.
  assert (I : In 3 (intervals (mm (exec quiet_platform sample_run (init sample_world)))))
    by (vm_compute; now left).
  split; [exact G|].
  split; [vm_compute; now left|].
  split; [exact (proj1 (H2 1 OneShot (Plain 13) 100%Z _ G))|].
  split; [exact I|].
  split; [exact (H4 3 [OpFire 3; OpFire 3; OpClearTimeout 2; OpFire 1; OpFire 3] _ I eq_refl)|].
  exact (H5 3 _ eq_refl).
Defined.


(** The counts after the sample run. *)
Lemma getMemoryUsage_counts_witness :
  let s := exec quiet_platform sample_run (init sample_world) in
  getMemoryUsage s = (Ok (mkMemoryUsage 2 1 2 1 1), s)
  /\ NoDup (timeouts (mm s))
  /\ (exists wrapped, tracks s 2 wrapped).
Proof.
  cbv zeta.
  destruct (getMemoryUsage_counts quiet_platform sample_run sample_world)
    as (H1 & _ & _ & H4 & _ & _ & H7).
  split; [exact H1|]. split; [exact H4|].
  apply H7. vm_compute. right. now left.
Defined.

(** A report whose delivery fails: the failure is written to the console
    and the call returns. *)
Lemma handleScrapingError_report_witness :
  handleScrapingError faulty_platform "Global error: x is not defined"
                      (init sample_world)
  = (Ok tt,
     mkState new_MemoryManager
       (set_trace
          [RuntimeSendMessage
             {| action := "contentScriptError";
                error := "Global error: x is not defined";
                timestamp := 1700000000000;
                url := "https://example.org/gallery" |};
           ConsoleError "Failed to send error to background:"
                        (VError "Error" "Extension context invalidated.")]
          sample_world)).
Proof.
  exact (handleScrapingError_report faulty_platform
           "Global error: x is not defined" (init sample_world)).
Defined.

(** Clearing timer 1 after it has fired, and an interval that never
    existed. *)
Lemma clear_untracked_is_noop_witness :
  let s := exec quiet_platform (sample_run ++ [OpFire 1]) (init sample_world) in
  ~ In 1 (timeouts (mm s))
  /\ clearTimeout quiet_platform 1 s = (Ok tt, s)
  /\ ~ In 9 (intervals (mm s))
  /\ clearInterval quiet_platform 9 s = (Ok tt, s).
Proof.
  cbv zeta.
  assert (T : ~ In 1 (timeouts (mm (exec quiet_platform (sample_run ++ [OpFire 1])
                                      (init sample_world))))).
  { vm_compute. intros [H | []]. discriminate. }
  assert (I : ~ In 9 (intervals (mm (exec quiet_platform (sample_run ++ [OpFire 1])
                                      (init sample_world))))).
  { vm_compute. intros [H | []]. discriminate. }
  destruct (clear_untracked_is_noop quiet_platform 1
              (exec quiet_platform (sample_run ++ [OpFire 1]) (init sample_world)))
    as [H1 _].
  destruct (clear_untracked_is_noop quiet_platform 9
              (exec quiet_platform (sample_run ++ [OpFire 1]) (init sample_world)))
    as [_ H2].
  split; [exact T|]. split; [exact (H1 T)|]. split; [exact I | exact (H2 I)].
Defined.

(** An error event without an error object. *)
Lemma on_error_without_error_object_witness :
  (ev_error (mkErrorEvent VNull) = VNull \/ ev_error (mkErrorEvent VNull) = VUndefined)
  /\ exists message,
       on_error quiet_platform (mkErrorEvent VNull) (init sample_world)
       = (Throw (TypeError message), init sample_world).
Proof.
  split; [now left|].
  apply (on_error_without_error_object quiet_platform (mkErrorEvent VNull)
           (init sample_world)).
  now left.
Defined.

(** An Error instance in the event is relayed with its message. *)
Example on_error_with_error_object :
  trace (world (snd (on_error quiet_platform
                       (mkErrorEvent (VError "RangeError" "too deep"))
                       (init sample_world))))
  = [RuntimeSendMessage
       {| action := "contentScriptError";
          error := "Global error: too deep";
          timestamp := 1700000000000;
          url := "https://example.org/gallery" |}].
Proof. reflexivity. Qed.

(** An operation that resolves after 100 ms has its result returned
    unchanged, 100 ms after the call. *)
Example guard_fast_operation :
  let s := init sample_world in
  let r := safeContentExecute quiet_platform
             (fun _ => Settles 100 (Resolved (VStr "done"))) (Some "test") [] s in
  fst r = Ok (VStr "done")
  /\ (clock (world (snd r)) = clock (world s) + 100)%Z.
Proof. split; reflexivity. Qed.

(** An operation that never settles fails with the timeout error when the
    timer fires: after 30000 ms in the script, after 50 ms with a bound of
    50 ms. *)
Example guard_never_settles :
  let s := init sample_world in
  let r := safeContentExecute quiet_platform (fun _ => NeverSettles) (Some "test") [] s in
  let r50 := await_race quiet_platform NeverSettles 50 s in
  fst r = Throw timeout_error
  /\ (clock (world (snd r)) = clock (world s) + 30000)%Z
  /\ fst r50 = Throw timeout_error
  /\ (clock (world (snd r50)) = clock (world s) + 50)%Z.
Proof. repeat split; reflexivity. Qed.

(** ** The further properties at the sample inputs *)


(** A fourth listener on owner 1 of the sample run, registered and
    unregistered again. *)
Lemma register_unregister_roundtrip_witness :
  let s := exec quiet_platform sample_run (init sample_world) in
  let r1 := addEventListener quiet_platform 1 "click" (Plain 10) None s in
  let r2 := removeEventListener quiet_platform 1 "click" (Bound (Plain 10) 4) (snd r1) in
  passes_existing_functions quiet_platform sample_run (init sample_world)
  /\ fst r1 = Ok (Bound (Plain 10) 4)
  /\ fst r2 = Ok tt
  /\ mm (snd r2) = mm s.
Proof.
  cbv zeta.
  assert (W : passes_existing_functions quiet_platform sample_run (init sample_world)).
  { cbn. repeat split. }
  destruct (register_unregister_roundtrip quiet_platform sample_run sample_world
              1 "click" (Plain 10) None W eq_refl eq_refl) as (H1 & H2 & H3 & _).
  split; [exact W|]. split; [exact H1|]. split; [exact H2 | exact H3].
Defined.


(** Adding callback 30 to the sample state and removing it again. *)
Lemma cleanup_callback_set_laws_witness :
  let s := exec quiet_platform sample_run (init sample_world) in
  ~ In (Plain 30) (cleanupCallbacks (mm s))
  /\ removeCleanupCallback (Plain 30) (snd (addCleanupCallback (Plain 30) s)) = (Ok tt, s)
  /\ In (Plain 16) (cleanupCallbacks (mm s))
  /\ addCleanupCallback (Plain 16) s = (Ok tt, s).
Proof.
  cbv zeta.
  assert (N : ~ In (Plain 30)
                (cleanupCallbacks (mm (exec quiet_platform sample_run (init sample_world))))).
  { vm_compute. intros [H | []]. discriminate. }
  assert (I : In (Plain 16)
                (cleanupCallbacks (mm (exec quiet_platform sample_run (init sample_world)))))
    by (vm_compute; now left).
  destruct (cleanup_callback_set_laws (Plain 30)
              (exec quiet_platform sample_run (init sample_world))) as (_ & _ & H & _).
  destruct (cleanup_callback_set_laws (Plain 16)
              (exec quiet_platform sample_run (init sample_world))) as (H' & _).
  split; [exact N|]. split; [exact (proj2 (H N))|]. split; [exact I | exact (H' I)].
Defined.

(** The observer of the sample run outlives timers firing and listeners
    being unregistered; a constructor that throws tracks nothing. *)
Lemma observer_tracked_until_cleanupAll_witness :
  let s := exec quiet_platform sample_run (init sample_world) in
  In 3 (observers (mm s))
  /\ In 3 (observers
             (mm (exec quiet_platform
                    [OpFire 1; OpRemoveEventListener 2 "click" (Plain 10);
                     OpClearInterval 3] s)))
  /\ fst (createObserver refusing_platform 8 (Plain 12) None (init sample_world))
     = Throw (TypeError "observerClass is not a constructor")
  /\ mm (snd (createObserver refusing_platform 8 (Plain 12) None (init sample_world)))
     = new_MemoryManager.
Proof.
  cbv zeta.
  assert (I : In 3 (observers (mm (exec quiet_platform sample_run (init sample_world)))))
    by (vm_compute; now left).
  destruct (observer_tracked_until_cleanupAll quiet_platform) as [_ H2].
  destruct (observer_tracked_until_cleanupAll refusing_platform) as [H1 _].
  specialize (H1 8 (Plain 12) None (init sample_world)). cbv zeta in H1.
  split; [exact I|].
  split; [exact (H2 3 [OpFire 1; OpRemoveEventListener 2 "click" (Plain 10);
                       OpClearInterval 3] _ I eq_refl)|].
  exact H1.
Defined.

(** The timers of the sample run after timer 1 has fired. *)
Lemma tracked_timers_are_live_witness :
  let s := exec quiet_platform (sample_run ++ [OpFire 1]) (init sample_world) in
  timers_live s
  /\ timeouts (mm s) = [2]
  /\ intervals (mm s) = [3]
  /\ ~ In 2 (intervals (mm s)).
Proof.
  cbv zeta.
  destruct (tracked_timers_are_live quiet_platform (sample_run ++ [OpFire 1])
              sample_world) as [H1 H2].
  split; [exact H1|]. split; [reflexivity|]. split; [reflexivity|].
  apply H2. vm_compute. now left.
Defined.

(** A timer scheduled and cancelled after the sample run. *)
Lemma schedule_cancel_roundtrip_witness :
  let s := exec quiet_platform sample_run (init sample_world) in
  let r1 := setTimeout (Plain 40) 500 s in
  let r2 := clearTimeout quiet_platform 4 (snd r1) in
  fst r1 = Ok 4
  /\ fst r2 = Ok tt
  /\ mm (snd r2) = mm s
  /\ fire quiet_platform 4 (snd r2) = (Ok tt, snd r2).
Proof.
  cbv zeta.
  destruct (schedule_cancel_roundtrip quiet_platform sample_run sample_world
              (Plain 40) 500%Z) as [H _].
  destruct (H eq_refl) as (H1 & H2 & H3 & _ & H5).
  split; [exact H1|]. split; [exact H2|]. split; [exact H3 | exact H5].
Defined.

(** A thrown string is relayed without its text; a rejection with the
    reason null is relayed as such. *)
Lemma global_listeners_relay_witness :
  trace (world (snd (on_error quiet_platform (mkErrorEvent (VStr "oops"))
                       (init sample_world))))
  = [RuntimeSendMessage
       (mkReport "contentScriptError" "Global error: undefined"
                 1700000000000 "https://example.org/gallery")]
  /\ exists tail,
       trace (world (snd (on_unhandledrejection quiet_platform (mkRejectionEvent VNull)
                            (init sample_world))))
       = RuntimeSendMessage
           (mkReport "contentScriptError" "Unhandled promise rejection: null"
                     1700000000000 "https://example.org/gallery")
         :: tail.
Proof.
  destruct (global_listeners_relay quiet_platform (init sample_world)) as (_ & H2 & H3).
  split; [reflexivity|].
  destruct (H3 VNull eq_refl) as (tail & _ & T & _).
  exists tail. exact T.
Defined.

(** The sample run and its release write nothing to [console.log]. *)
Lemma never_logs_to_console_witness :
  exists out,
    trace (world (exec faulty_platform (sample_run ++ [OpCleanupAll])
                    (init sample_world)))
    = [] ++ out
    /\ Forall (fun a => is_log a = false) out.
Proof.
  exact (never_logs_to_console faulty_platform (sample_run ++ [OpCleanupAll])
           (init sample_world)).
Defined.

(** The keydown record of owner 1 in the sample run. *)
Lemma tracked_listeners_were_attached_witness :
  let s := exec quiet_platform sample_run (init sample_world) in
  let l := mkListenerInfo "keydown" (Bound (Plain 11) 1) (Plain 11) [] 1 in
  In l (listeners_of 1 s) /\ attached s 1 l.
Proof.
  cbv zeta.
  assert (I : In (mkListenerInfo "keydown" (Bound (Plain 11) 1) (Plain 11) [] 1)
                (listeners_of 1 (exec quiet_platform sample_run (init sample_world))))
    by (vm_compute; right; now left).
  split; [exact I|].
  exact (tracked_listeners_were_attached quiet_platform sample_run sample_world 1 _ I).
Defined.

(** The slow operation wins the race and leaves the timer of the guard
    with the platform. *)
Lemma guard_timer_is_never_cleared_witness :
  let r := safeContentExecute quiet_platform slow_operation (Some "test") []
             (init sample_world) in
  slow_operation [] = Settles 6000 (Resolved (VNum 42))
  /\ (6000 < MAX_EXECUTION_TIME)%Z
  /\ JsMap.get Nat.eqb 1 (pending (world (snd r)))
     = Some (mkTimer OneShot RejectThunk MAX_EXECUTION_TIME)
  /\ trace (world (snd (fire quiet_platform 1 (snd r)))) = trace (world (snd r)).
Proof.
  cbv zeta.
  destruct (guard_timer_is_never_cleared quiet_platform slow_operation (Some "test")
              [] (init sample_world)) as (_ & _ & H & _).
  destruct (H 6000%Z (Resolved (VNum 42)) eq_refl eq_refl) as (_ & H2 & _ & H4 & _).
  split; [reflexivity|]. split; [reflexivity|]. split; [exact H2 | exact H4].
Defined.


(** After the sample run and one guarded call, [cleanupAll] cancels the
    tracked timers 1, 2 and 3 and leaves the timer 4 of the guard. *)
Lemma cleanupAll_cancels_tracked_timers_witness :
  let s := exec quiet_platform
             (sample_run ++ [OpSafeContentExecute slow_operation None []])
             (init sample_world) in
  let s' := snd (cleanupAll quiet_platform s) in
  (forall tr id,
      quiet_platform tr (GlobalClearTimeout id) = None
      /\ quiet_platform tr (GlobalClearInterval id) = None)
  /\ JsMap.get Nat.eqb 2 (pending (world s')) = None
  /\ JsMap.get Nat.eqb 3 (pending (world s')) = None
  /\ JsMap.get Nat.eqb 4 (pending (world s'))
     = Some (mkTimer OneShot RejectThunk MAX_EXECUTION_TIME).
Proof.
  cbv zeta.
  assert (C : clears_return quiet_platform) by (intros tr id; split; reflexivity).
  split; [exact C|].
  pose proof (cleanupAll_cancels_tracked_timers quiet_platform C
                (exec quiet_platform
                   (sample_run ++ [OpSafeContentExecute slow_operation None []])
                   (init sample_world))) as H.
  destruct (H 2) as [H2 _]. destruct (H 3) as [H3 _]. destruct (H 4) as [_ H4].
  split; [apply H2; left; vm_compute; right; now left|].
  split; [apply H3; right; vm_compute; now left|].
  rewrite H4.
  - vm_compute. reflexivity.
  - vm_compute. intros [E | [E | []]]; discriminate E.
  - vm_compute. intros [E | []]; discriminate E.
Defined.

(** A scroll handler on owner 2 of the sample run, registered and
    unregistered by the handler itself. *)
Lemma register_unregister_by_original_handler_witness :
  let s := exec quiet_platform sample_run (init sample_world) in
  let r1 := addEventListener quiet_platform 2 "scroll" (Plain 50) None s in
  let r2 := removeEventListener quiet_platform 2 "scroll" (Plain 50) (snd r1) in
  (forall l, In l (listeners_of 2 s) ->
             listener_matches "scroll" (Plain 50) l = false)
  /\ fst r1 = Ok (Bound (Plain 50) 4)
  /\ fst r2 = Ok tt
  /\ mm (snd r2) = mm s.
Proof.
  cbv zeta.
  assert (H : forall l,
             In l (listeners_of 2 (exec quiet_platform sample_run (init sample_world))) ->
             listener_matches "scroll" (Plain 50) l = false).
  { intros l I. vm_compute in I. destruct I as [<- | []]. reflexivity. }
  destruct (register_unregister_by_original_handler quiet_platform sample_run
              sample_world 2 "scroll" (Plain 50) None H eq_refl eq_refl)
    as (H1 & H2 & H3 & _).
  split; [exact H|]. split; [exact H1|]. split; [exact H2 | exact H3].
Defined.
